(** * Telephony-to-model audio relay: token store, handshake, relay pumps
    and interruption controller of [main.py], embedded as Rocq functions.

    Conventions of the embedding.
    - A Python [str] is a [string]; a value that may be [None] or a missing
      dictionary key is an [option].
    - Python integers are unbounded, so timestamps are [Z].
    - [datetime.now()] reads a clock that the program does not control: every
      function that reads it takes the reading as an argument [now], counted
      in microseconds (the resolution of [datetime]).
    - [secrets.token_urlsafe(32)] draws from the system's random source: the
      drawn value is an argument of the function that draws it.
    - The process-wide dictionary [websocket_tokens] is a [gmap string Z]
      threaded through the functions that read or write it.
    - Messages written to one of the two sockets are collected in an output
      list, in the order in which they are sent. [print] is not modelled. *)

From Stdlib Require Import ZArith NArith Ascii String List Bool Lia.
From stdpp Require Import base option list strings gmap fin_maps.

Local Open Scope Z_scope.
Local Open Scope string_scope.

(** ** Python truthiness of an optional string ([if x:], [not x]). *)

Definition truthy (o : option string) : bool :=
  match o with
  | None => false
  | Some s => negb (String.eqb s "")
  end.

(** ** Token store (main.py, lines 64-79) *)

Module TokenStore.

(** [timedelta(seconds=60)], in microseconds. *)
Definition SIXTY_SECONDS : Z := 60 * 1000000.

(** [generate_websocket_token]: [token] is the value drawn by
    [secrets.token_urlsafe(32)], [now] the clock reading. *)
Definition generate_websocket_token (token : string) (now : Z)
    (websocket_tokens : gmap string Z) : string * gmap string Z :=
  let expiration := now + SIXTY_SECONDS in
  (token, <[token := expiration]> websocket_tokens).

(** [cleanup_expired_tokens]: collect the keys whose expiration lies strictly
    before [now], then delete them one by one. *)
Definition expired_keys (now : Z) (websocket_tokens : gmap string Z)
    : list string :=
  (map_to_list websocket_tokens
     ≫= λ '(token, exp), if bool_decide (exp < now) then [token] else []).

Definition cleanup_expired_tokens (now : Z)
    (websocket_tokens : gmap string Z) : gmap string Z :=
  let expired := expired_keys now websocket_tokens in
  foldl (fun m token => delete token m) websocket_tokens expired.

End TokenStore.

(** ** Handshake of [handle_media_stream] (main.py, lines 137-182) *)

Module Handshake.
Import TokenStore.

(** What [json.loads(message)] yields, restricted to the keys the handshake
    reads. [hs_event] is [data.get('event')];
    [hs_token] is [data.get('start', {}).get('customParameters', {}).get('token')];
    [hs_streamSid] is [data.get('start', {}).get('streamSid')]. *)
Record handshake_data := {
  hs_event : option string;
  hs_token : option string;
  hs_streamSid : option string
}.

(** One completed [await websocket.receive_text()] together with the
    [json.loads] that follows it: either a parsed message, or an exception
    (peer disconnected, text that is not JSON). *)
Inductive received :=
| Text (data : handshake_data)
| Raised.

(** How the handshake part of [handle_media_stream] ends.
    [Waiting] is the coroutine suspended in [receive_text()] with every
    message received so far consumed: the [while True] loop wraps the read in
    no timer, so nothing but a further message or a disconnect resumes it. *)
Inductive outcome :=
| Accepted (initial_stream_sid : option string)
| Closed (code : Z) (reason : string)
| Waiting.

(** Lines 163-177: the token check after the loop. [now] is the reading of
    [datetime.now()] on line 169. *)
Definition check_token (token : option string) (initial_stream_sid : option string)
    (now : Z) (websocket_tokens : gmap string Z) : outcome * gmap string Z :=
  match token with
  | Some t =>
      if truthy token then
        match websocket_tokens !! t with
        | Some expiration =>
            if bool_decide (now > expiration) then
              (Closed 1008 "Token expired", delete t websocket_tokens)
            else
              (Accepted initial_stream_sid, delete t websocket_tokens)
        | None => (Closed 1008 "Invalid or missing token", websocket_tokens)
        end
      else (Closed 1008 "Invalid or missing token", websocket_tokens)
  | None => (Closed 1008 "Invalid or missing token", websocket_tokens)
  end.

(** Lines 141-161 followed by the token check: the read loop over the
    messages that arrive, in arrival order. *)
Fixpoint handle_media_stream (messages : list received) (now : Z)
    (websocket_tokens : gmap string Z) : outcome * gmap string Z :=
  match messages with
  | [] => (Waiting, websocket_tokens)
  | Raised :: _ => (Closed 1011 "Authentication error", websocket_tokens)
  | Text data :: rest =>
      if bool_decide (hs_event data = Some "start") then
        check_token (hs_token data) (hs_streamSid data) now websocket_tokens
      else if bool_decide (hs_event data = Some "connected") then
        handle_media_stream rest now websocket_tokens
      else
        (Closed 1008 "Unexpected event", websocket_tokens)
  end.

Definition connected : received :=
  Text {| hs_event := Some "connected"; hs_token := None; hs_streamSid := None |}.

Definition start (token : option string) (streamSid : option string) : received :=
  Text {| hs_event := Some "start"; hs_token := token; hs_streamSid := streamSid |}.

(** The message is a parsed one whose ['event'] is [name]. *)
Definition has_event (name : string) (m : received) : bool :=
  match m with
  | Text data => bool_decide (hs_event data = Some name)
  | Raised => false
  end.

End Handshake.

(** ** The standard library's base64 codec, as [send_to_twilio] calls it

    [base64.b64encode(bs)] is [binascii.b2a_base64(bs, newline=False)] and
    [base64.b64decode(s)] with its default [validate=False] is
    [binascii.a2b_base64] in its lenient mode, applied to [s.encode('ascii')].
    Python [bytes] are lists of [ascii] (8-bit characters). *)

Module Base64.

Local Open Scope N_scope.

Definition table_b2a_base64 : list ascii :=
  list_ascii_of_string
    "ABCDEFGHIJKLMNOPQRSTUVWXYZabcdefghijklmnopqrstuvwxyz0123456789+/".

Definition BASE64_PAD : ascii := "="%char.

(** The character of a 6-bit value. *)
Definition b2a (sextet : N) : ascii :=
  nth (N.to_nat sextet) table_b2a_base64 BASE64_PAD.

(** The inverse table [table_a2b_base64]: the 6-bit value of an alphabet
    character, [None] for every other character. *)
Fixpoint index_of (c : ascii) (table : list ascii) (i : N) : option N :=
  match table with
  | [] => None
  | x :: rest => if Ascii.eqb c x then Some i else index_of c rest (N.succ i)
  end.

Definition a2b (c : ascii) : option N := index_of c table_b2a_base64 0.

Definition byte_of (n : N) : ascii := ascii_of_N (N.land n 255).

(** [binascii.b2a_base64]: three bytes become four characters; one or two
    trailing bytes are zero-filled and padded with [=]. *)
Fixpoint b2a_base64 (bin_data : list ascii) : list ascii :=
  match bin_data with
  | [] => []
  | [x] =>
      let a := N_of_ascii x in
      [b2a (N.shiftr a 2); b2a (N.shiftl (N.land a 3) 4);
       BASE64_PAD; BASE64_PAD]
  | [x; y] =>
      let a := N_of_ascii x in
      let b := N_of_ascii y in
      [b2a (N.shiftr a 2);
       b2a (N.lor (N.shiftl (N.land a 3) 4) (N.shiftr b 4));
       b2a (N.shiftl (N.land b 15) 2);
       BASE64_PAD]
  | x :: y :: z :: rest =>
      let a := N_of_ascii x in
      let b := N_of_ascii y in
      let c := N_of_ascii z in
      b2a (N.shiftr a 2)
      :: b2a (N.lor (N.shiftl (N.land a 3) 4) (N.shiftr b 4))
      :: b2a (N.lor (N.shiftl (N.land b 15) 2) (N.shiftr c 6))
      :: b2a (N.land c 63)
      :: b2a_base64 rest
  end.

(** [binascii.a2b_base64], lenient mode: characters outside the alphabet are
    skipped; a [=] ends the input once it completes a quad that already holds
    at least two characters, and is skipped otherwise; input that ends inside
    a quad raises [binascii.Error] ([None]). [quad_pos], [leftchar] and [pads]
    are the decoder's loop variables. *)
Fixpoint a2b_base64_loop (ascii_data : list ascii) (quad_pos leftchar pads : N)
    : option (list ascii) :=
  match ascii_data with
  | [] => if quad_pos =? 0 then Some [] else None
  | this_ch :: rest =>
      if Ascii.eqb this_ch BASE64_PAD then
        if 2 <=? quad_pos then
          if 4 <=? quad_pos + (pads + 1) then Some []
          else a2b_base64_loop rest quad_pos leftchar (pads + 1)
        else a2b_base64_loop rest quad_pos leftchar pads
      else
        match a2b this_ch with
        | None => a2b_base64_loop rest quad_pos leftchar pads
        | Some v =>
            if quad_pos =? 0 then
              a2b_base64_loop rest 1 v 0
            else if quad_pos =? 1 then
              cons (byte_of (N.lor (N.shiftl leftchar 2) (N.shiftr v 4)))
                <$> a2b_base64_loop rest 2 (N.land v 15) 0
            else if quad_pos =? 2 then
              cons (byte_of (N.lor (N.shiftl leftchar 4) (N.shiftr v 2)))
                <$> a2b_base64_loop rest 3 (N.land v 3) 0
            else
              cons (byte_of (N.lor (N.shiftl leftchar 6) v))
                <$> a2b_base64_loop rest 0 0 0
        end
  end.

Definition a2b_base64 (ascii_data : list ascii) : option (list ascii) :=
  a2b_base64_loop ascii_data 0 0 0.

(** [s.encode('ascii')]: raises on a character above 127. *)
Definition encode_ascii (s : string) : option (list ascii) :=
  let l := list_ascii_of_string s in
  if forallb (fun c => N_of_ascii c <? 128) l then Some l else None.

Definition b64decode (s : string) : option (list ascii) :=
  encode_ascii s ≫= a2b_base64.

Definition b64encode (bs : list ascii) : list ascii := b2a_base64 bs.

(** [bs.decode('utf-8')] of bytes that are all ASCII. *)
Definition decode_utf8 (bs : list ascii) : string := string_of_list_ascii bs.

End Base64.

(** ** Relay pumps and interruption controller (main.py, lines 192-304) *)

Module Relay.

(** The connection specific state of lines 193-197: the variables of
    [handle_media_stream] that its nested coroutines share. *)
Record session := {
  stream_sid : option string;
  latest_media_timestamp : Z;
  last_assistant_item : option string;
  mark_queue : list string;
  response_start_timestamp_twilio : option Z
}.

(** Lines 193-197, after a handshake that saved [initial_stream_sid]. *)
Definition initial_session (initial_stream_sid : option string) : session :=
  {| stream_sid := initial_stream_sid;
     latest_media_timestamp := 0;
     last_assistant_item := None;
     mark_queue := [];
     response_start_timestamp_twilio := None |}.

(** The variables that are local to [receive_from_twilio]. Its [nonlocal]
    statement (line 201) lists [stream_sid] and [latest_media_timestamp] only,
    so the two other names it assigns (lines 215 and 217) are bound in its own
    frame: [None] here is a name not yet bound, [Some v] a name bound to [v]. *)
Record receive_locals := {
  local_response_start_timestamp_twilio : option (option Z);
  local_last_assistant_item : option (option string)
}.

Definition initial_locals : receive_locals :=
  {| local_response_start_timestamp_twilio := None;
     local_last_assistant_item := None |}.

(** A message written to one of the two sockets. *)
Inductive sent :=
| OpenAI_audio_append (audio : string)
| OpenAI_truncate (item_id : string) (content_index : Z) (audio_end_ms : Z)
| Twilio_media (streamSid : option string) (payload : string)
| Twilio_mark (streamSid : option string) (name : string)
| Twilio_clear (streamSid : option string).

(** The result of one iteration of a pump's loop: the loop goes on, or an
    exception left it; either way with the state reached and the messages
    sent until then. *)
Inductive step (A : Type) :=
| Continue (st : A) (out : list sent)
| Raise (st : A) (out : list sent).
Arguments Continue {A} st out.
Arguments Raise {A} st out.

Definition state_of {A} (r : step A) : A :=
  match r with Continue st _ | Raise st _ => st end.

Definition output_of {A} (r : step A) : list sent :=
  match r with Continue _ out | Raise _ out => out end.

(** A message from the telephony side, restricted to the keys the pump reads.
    [event] is [data['event']], [start_streamSid] is
    [data['start']['streamSid']], [media_timestamp] is
    [int(data['media']['timestamp'])], [media_payload] is
    [data['media']['payload']]; [None] is a key that is missing (or a
    timestamp that [int] refuses), which raises where it is read. *)
Record twilio_data := {
  event : option string;
  start_streamSid : option string;
  media_timestamp : option Z;
  media_payload : option string
}.

(** One iteration of the loop of [receive_from_twilio] (lines 203-220);
    [openai_open] is [openai_ws.state.name == 'OPEN']. *)
Definition receive_from_twilio (openai_open : bool) (data : twilio_data)
    (st : session) (loc : receive_locals) : step (session * receive_locals) :=
  match event data with
  | None => Raise (st, loc) []
  | Some ev =>
      if String.eqb ev "media" && openai_open then
        match media_timestamp data with
        | None => Raise (st, loc) []
        | Some ts =>
            let st1 :=
              {| stream_sid := stream_sid st;
                 latest_media_timestamp := ts;
                 last_assistant_item := last_assistant_item st;
                 mark_queue := mark_queue st;
                 response_start_timestamp_twilio :=
                   response_start_timestamp_twilio st |} in
            match media_payload data with
            | None => Raise (st1, loc) []
            | Some payload => Continue (st1, loc) [OpenAI_audio_append payload]
            end
        end
      else if String.eqb ev "start" then
        match start_streamSid data with
        | None => Raise (st, loc) []
        | Some sid =>
            Continue
              ({| stream_sid := Some sid;
                  latest_media_timestamp := 0;
                  last_assistant_item := last_assistant_item st;
                  mark_queue := mark_queue st;
                  response_start_timestamp_twilio :=
                    response_start_timestamp_twilio st |},
               {| local_response_start_timestamp_twilio := Some None;
                  local_last_assistant_item := Some None |})
              []
        end
      else if String.eqb ev "mark" then
        Continue
          ({| stream_sid := stream_sid st;
              latest_media_timestamp := latest_media_timestamp st;
              last_assistant_item := last_assistant_item st;
              mark_queue := tail (mark_queue st);
              response_start_timestamp_twilio :=
                response_start_timestamp_twilio st |}, loc) []
      else Continue (st, loc) []
  end.

(** [send_mark] (lines 294-302). *)
Definition send_mark (st : session) : session * list sent :=
  if truthy (stream_sid st) then
    ({| stream_sid := stream_sid st;
        latest_media_timestamp := latest_media_timestamp st;
        last_assistant_item := last_assistant_item st;
        mark_queue := (mark_queue st ++ ["responsePart"])%list;
        response_start_timestamp_twilio := response_start_timestamp_twilio st |},
     [Twilio_mark (stream_sid st) "responsePart"])
  else (st, []).

(** [handle_speech_started_event] (lines 264-292). *)
Definition handle_speech_started_event (st : session) : session * list sent :=
  match mark_queue st, response_start_timestamp_twilio st with
  | _ :: _, Some response_start =>
      let elapsed_time := latest_media_timestamp st - response_start in
      let truncate :=
        match last_assistant_item st with
        | Some item =>
            if truthy (last_assistant_item st)
            then [OpenAI_truncate item 0 elapsed_time] else []
        | None => []
        end in
      ({| stream_sid := stream_sid st;
          latest_media_timestamp := latest_media_timestamp st;
          last_assistant_item := None;
          mark_queue := [];
          response_start_timestamp_twilio := None |},
       (truncate ++ [Twilio_clear (stream_sid st)])%list)
  | _, _ => (st, [])
  end.

(** An event from the model, restricted to the keys the pump reads:
    [response['type']], [response['delta']], [response.get("item_id")];
    [None] is a missing key. *)
Record openai_response := {
  type : option string;
  delta : option string;
  item_id : option string
}.

(** Line 236: [base64.b64encode(base64.b64decode(delta)).decode('utf-8')]. *)
Definition audio_payload_of (delta : string) : option string :=
  (fun bs => Base64.decode_utf8 (Base64.b64encode bs)) <$> Base64.b64decode delta.

(** Lines 235-253 of [send_to_twilio]: the branch of an audio delta. *)
Definition forward_audio_delta (response : openai_response) (st : session)
    : step session :=
  match delta response with
  | Some d =>
      if bool_decide (type response = Some "response.output_audio.delta") then
        match audio_payload_of d with
        | None => Raise st []
        | Some audio_payload =>
            let audio_delta := Twilio_media (stream_sid st) audio_payload in
            let st1 :=
              if truthy (item_id response)
                 && negb (bool_decide (item_id response = last_assistant_item st))
              then
                {| stream_sid := stream_sid st;
                   latest_media_timestamp := latest_media_timestamp st;
                   last_assistant_item := item_id response;
                   mark_queue := mark_queue st;
                   response_start_timestamp_twilio :=
                     Some (latest_media_timestamp st) |}
              else st in
            let '(st2, marks) := send_mark st1 in
            Continue st2 (audio_delta :: marks)
        end
      else Continue st []
  | None => Continue st []
  end.

(** Lines 256-260 of [send_to_twilio]: the branch of a speech start. *)
Definition interrupt_on_speech_started (response : openai_response)
    (st : session) : session * list sent :=
  if bool_decide (type response = Some "input_audio_buffer.speech_started") then
    if truthy (last_assistant_item st) then handle_speech_started_event st
    else (st, [])
  else (st, []).

(** One iteration of the loop of [send_to_twilio] (lines 231-260): the two
    [if] statements run one after the other; any exception ends the loop. *)
Definition send_to_twilio (response : openai_response) (st : session)
    : step session :=
  match type response with
  | None => Raise st []
  | Some _ =>
      match forward_audio_delta response st with
      | Raise st1 out1 => Raise st1 out1
      | Continue st1 out1 =>
          let '(st2, out2) := interrupt_on_speech_started response st1 in
          Continue st2 (out1 ++ out2)%list
      end
  end.

End Relay.

(** ** The process: call admission, connections and the shared token store *)

Module Process.
Import TokenStore Handshake.

(** [handle_incoming_call] (lines 81-125), as far as it touches the token
    store: a request whose signature check fails is refused before the store
    is read; otherwise expired tokens are swept and a fresh token is issued.
    [None] is the 403 response, [Some t] the token embedded in the reply. *)
Definition handle_incoming_call (signature_valid : bool) (token : string)
    (now_cleanup now_generate : Z) (websocket_tokens : gmap string Z)
    : option string * gmap string Z :=
  if signature_valid then
    let swept := cleanup_expired_tokens now_cleanup websocket_tokens in
    let '(ws_token, issued) := generate_websocket_token token now_generate swept in
    (Some ws_token, issued)
  else (None, websocket_tokens).

(** What the process does to [websocket_tokens] over its lifetime: the three
    functions that touch it, called in any order with any arguments. *)
Inductive store_op :=
| Generate (token : string) (now : Z)
| Cleanup (now : Z)
| CheckToken (token : option string) (stream_sid : option string) (now : Z).

Definition run_op (op : store_op) (websocket_tokens : gmap string Z)
    : gmap string Z :=
  match op with
  | Generate token now => (generate_websocket_token token now websocket_tokens).2
  | Cleanup now => cleanup_expired_tokens now websocket_tokens
  | CheckToken token sid now => (check_token token sid now websocket_tokens).2
  end.

Definition run_ops (ops : list store_op) (websocket_tokens : gmap string Z)
    : gmap string Z :=
  foldl (fun m op => run_op op m) websocket_tokens ops.

(** The operation does not store a token of value [T]. *)
Definition not_generating (T : string) (op : store_op) : Prop :=
  match op with
  | Generate token _ => token ≠ T
  | _ => True
  end.

(** The operation does not present [T] for validation. *)
Definition not_checking (T : string) (op : store_op) : Prop :=
  match op with
  | CheckToken token _ _ => token ≠ Some T
  | _ => True
  end.

(** Some operation is a sweep at a reading of the clock after [deadline]. *)
Definition swept_after (deadline : Z) (ops : list store_op) : bool :=
  existsb
    (fun op =>
       match op with
       | Cleanup now => bool_decide (deadline < now)
       | _ => false
       end) ops.

End Process.

(** ** Both pumps on one connection *)

Module Scenario.
Import Relay.

(** What the two pumps are woken up by, in the order in which the scheduler
    runs them. Each iteration is taken as a whole: the other pump is not
    scheduled between two of its [await]s. *)
Inductive relay_event :=
| FromTwilio (openai_open : bool) (data : twilio_data)
| FromOpenAI (response : openai_response).

Record relay := {
  shared : session;
  locals : receive_locals;
  sender_running : bool
}.

(** Line 304: both pumps start on the connection specific state. *)
Definition relay_on (st : session) : relay :=
  {| shared := st; locals := initial_locals; sender_running := true |}.

Definition relay_after_handshake (initial_stream_sid : option string) : relay :=
  relay_on (initial_session initial_stream_sid).

(** Lines 184-197: the connection specific state exists once the handshake
    is through (and the connection to the model is open and configured). *)
Definition session_after_handshake (o : Handshake.outcome) : option session :=
  match o with
  | Handshake.Accepted initial_stream_sid =>
      Some (initial_session initial_stream_sid)
  | _ => None
  end.

(** [asyncio.gather] of the two pumps (line 304). An exception in
    [send_to_twilio] is caught inside it (line 261) and ends that pump only;
    an exception other than a disconnect in [receive_from_twilio] leaves
    [gather] and with it the connection. *)
Fixpoint run (events : list relay_event) (r : relay) : relay * list sent :=
  match events with
  | [] => (r, [])
  | FromTwilio openai_open data :: rest =>
      match receive_from_twilio openai_open data (shared r) (locals r) with
      | Continue (st, loc) out =>
          let '(r', outs) :=
            run rest {| shared := st; locals := loc;
                        sender_running := sender_running r |} in
          (r', (out ++ outs)%list)
      | Raise (st, loc) out =>
          ({| shared := st; locals := loc; sender_running := false |}, out)
      end
  | FromOpenAI response :: rest =>
      if sender_running r then
        match send_to_twilio response (shared r) with
        | Continue st out =>
            let '(r', outs) :=
              run rest {| shared := st; locals := locals r;
                          sender_running := true |} in
            (r', (out ++ outs)%list)
        | Raise st out =>
            let '(r', outs) :=
              run rest {| shared := st; locals := locals r;
                          sender_running := false |} in
            (r', (out ++ outs)%list)
        end
      else run rest r
  end.

(** The frames and events of the specification's data model, as the
    messages the pumps read. *)
Definition media (timestamp : Z) (payload : string) : relay_event :=
  FromTwilio true
    {| event := Some "media"; start_streamSid := None;
       media_timestamp := Some timestamp; media_payload := Some payload |}.

Definition start (streamSid : string) : relay_event :=
  FromTwilio true
    {| event := Some "start"; start_streamSid := Some streamSid;
       media_timestamp := None; media_payload := None |}.

Definition mark : relay_event :=
  FromTwilio true
    {| event := Some "mark"; start_streamSid := None;
       media_timestamp := None; media_payload := None |}.

(** An audio delta of the model: [audio] are the bytes of the audio, carried
    base64-encoded. *)
Definition audioDelta (itemId : string) (audio : list ascii) : relay_event :=
  FromOpenAI
    {| type := Some "response.output_audio.delta";
       delta := Some (Base64.decode_utf8 (Base64.b64encode audio));
       item_id := Some itemId |}.

(** An audio delta of the model with the payload as the wire carries it,
    whatever string that is. *)
Definition audioDeltaEvent (itemId : string) (payload : string) : relay_event :=
  FromOpenAI
    {| type := Some "response.output_audio.delta";
       delta := Some payload;
       item_id := Some itemId |}.

Definition speechStarted : relay_event :=
  FromOpenAI
    {| type := Some "input_audio_buffer.speech_started";
       delta := None; item_id := None |}.

End Scenario.

(** ** Settings read from the environment (main.py, lines 18-60;
    web_ui.py, lines 9-23) *)

Module Config.

(** [os.getenv(name)] on the environment as [load_dotenv()] left it. *)
Definition getenv (environ : gmap string string) (name : string)
    : option string :=
  environ !! name.

(** main.py, lines 44-60: the checks run in this order and the first one
    that fails raises [ValueError] with its message; [None] is a module that
    loads. *)
Definition missing_setting (environ : gmap string string) : option string :=
  if negb (truthy (getenv environ "OPENAI_API_KEY")) then
    Some "Missing the OpenAI API key. Please set it in the .env file."
  else if negb (truthy (getenv environ "TWILIO_AUTH_TOKEN")) then
    Some "Missing the Twilio Auth Token. Please set it in the .env file."
  else if negb (truthy (getenv environ "ZAPIER_MCP_URL")) then
    Some "Missing ZAPIER_MCP_URL. Please set it in the .env file."
  else if negb (truthy (getenv environ "ZAPIER_MCP_PASSWORD")) then
    Some "Missing ZAPIER_MCP_PASSWORD. Please set it in the .env file."
  else if negb (truthy (getenv environ "ASSISTANT_INSTRUCTIONS")) then
    Some "Missing ASSISTANT_INSTRUCTIONS. Please set it in the .env file."
  else if negb (truthy (getenv environ "VOICE")) then
    Some "Missing VOICE. Please set it in the .env file."
  else None.

(** [str(x)] of an optional string, as an f-string formats it. *)
Definition format (o : option string) : string :=
  match o with
  | Some s => s
  | None => "None"
  end.

(** The declaration of the external tool integration, the same dictionary
    in main.py (lines 343-351) and web_ui.py (lines 41-49). *)
Record mcp_tool := {
  tool_type : string;
  server_label : string;
  server_url : option string;
  authorization : string;
  require_approval : string
}.

(** main.py, lines 342-352: the ["tools"] of [session_config]. *)
Definition session_tools (environ : gmap string string) : list mcp_tool :=
  [ {| tool_type := "mcp";
       server_label := "zapier";
       server_url := getenv environ "ZAPIER_MCP_URL";
       authorization := "Bearer " ++ format (getenv environ "ZAPIER_MCP_PASSWORD");
       require_approval := "never" |} ].

End Config.

(** ** The chat demo (web_ui.py) *)

Module WebUI.
Import Config.

(** Lines 14-23: how the script gets past its settings. [Stopped] is
    [st.error] followed by [st.stop()]; [Started warned] goes on, [warned]
    telling whether the warning about missing tools was shown. *)
Inductive startup :=
| Stopped (error : string)
| Started (warned : bool).

Definition check_settings (environ : gmap string string) : startup :=
  if negb (truthy (getenv environ "OPENAI_API_KEY")) then
    Stopped "Missing OPENAI_API_KEY. Please set it in the .env file."
  else if negb (truthy (getenv environ "ASSISTANT_INSTRUCTIONS")) then
    Stopped "Missing ASSISTANT_INSTRUCTIONS. Please set it in the .env file."
  else
    Started (negb (truthy (getenv environ "ZAPIER_MCP_URL"))
             || negb (truthy (getenv environ "ZAPIER_MCP_PASSWORD"))).

(** Lines 35-51 of [get_agent]: the tools the agent is built with. *)
Definition get_agent_tools (environ : gmap string string) : list mcp_tool :=
  if truthy (getenv environ "ZAPIER_MCP_URL")
     && truthy (getenv environ "ZAPIER_MCP_PASSWORD")
  then
    [ {| tool_type := "mcp";
         server_label := "zapier";
         server_url := getenv environ "ZAPIER_MCP_URL";
         authorization :=
           "Bearer " ++ format (getenv environ "ZAPIER_MCP_PASSWORD");
         require_approval := "never" |} ]
  else [].

(** Line 102: [has_tools], which picks the status shown in the sidebar. *)
Definition has_tools (environ : gmap string string) : bool :=
  truthy (getenv environ "ZAPIER_MCP_URL")
  && truthy (getenv environ "ZAPIER_MCP_PASSWORD").

(** An entry of [st.session_state.messages]. *)
Record message := {
  role : string;
  content : string
}.

(** How the block of a submitted prompt (lines 70-99) goes on after the
    user message is stored: the agent returns a result, whose [final_output]
    may be empty or [None]; or an exception is caught by [except Exception]
    (line 93) and reported, [text] being [str(e)]; or the run is [Escaped]: an
    exception leaves the block before line 99, because [except Exception]
    does not catch it (Streamlit's requests to rerun or stop the script, a
    cancellation, a keyboard interrupt) or because it is raised outside the
    [try] or inside the handler. *)
Inductive agent_run :=
| Result (final_output : option string)
| Exception (text : string)
| Escaped.

(** Lines 62-63: the history is created empty on the first run. *)
Definition session_messages (stored : option (list message)) : list message :=
  match stored with
  | Some messages => messages
  | None => []
  end.

(** Lines 69-99: a submitted prompt is stored (line 70), the agent is run on
    it, and what is shown for the assistant is stored after it (line 99),
    unless the run is left in between. The boolean tells whether the script
    goes on after the block. *)
Definition handle_prompt (prompt : option string) (outcome : agent_run)
    (messages : list message) : list message * bool :=
  match prompt with
  | Some text =>
      if truthy prompt then
        let asked := (messages ++ [ {| role := "user"; content := text |} ])%list in
        match outcome with
        | Result final_output =>
            let full_response :=
              match final_output with
              | Some output => if truthy final_output then output else ""
              | None => ""
              end in
            ((asked ++ [ {| role := "assistant"; content := full_response |} ])%list,
             true)
        | Exception e =>
            ((asked ++ [ {| role := "assistant"; content := "Error: " ++ e |} ])%list,
             true)
        | Escaped => (asked, false)
        end
      else (messages, true)
  | None => (messages, true)
  end.

(** One run of the script on the stored history: the chat input (lines
    69-99), then, if the script gets there, the button of the sidebar (lines
    107-109). A run that is left before line 69 is a run without a prompt and
    without a click; one that is left after line 99, a run without a click. *)
Definition script_run (prompt : option string) (outcome : agent_run)
    (clear_pressed : bool) (stored : option (list message))
    : option (list message) :=
  let '(messages, goes_on) :=
    handle_prompt prompt outcome (session_messages stored) in
  if goes_on && clear_pressed then Some [] else Some messages.

(** The history after a series of runs, oldest first. *)
Definition script_runs (runs : list (option string * agent_run * bool))
    (stored : option (list message)) : option (list message) :=
  foldl (fun stored '(prompt, outcome, clear_pressed) =>
           script_run prompt outcome clear_pressed stored) stored runs.

(** How a turn of the conversation is stored: the user's message, followed
    by the assistant's if the turn got one. *)
Definition turn_messages (turn : string * option string) : list message :=
  {| role := "user"; content := turn.1 |}
  :: match turn.2 with
     | Some reply => [ {| role := "assistant"; content := reply |} ]
     | None => []
     end.

End WebUI.

(** ** What holds of the session throughout a connection *)

Module Invariant.
Import Relay.

(** The last assistant item and the response start timestamp are set
    together and unset together; an item that is set is not the empty string;
    the mark queue holds nothing but the name of the one mark that is sent. *)
Definition response_state_consistent (st : session) : Prop :=
  (last_assistant_item st = None ↔ response_start_timestamp_twilio st = None)
  ∧ (∀ item, last_assistant_item st = Some item → item ≠ "")
  ∧ Forall (fun name => name = "responsePart") (mark_queue st).

End Invariant.

(** * Properties *)

(** ** Token store *)

Section token_store_facts.
Import TokenStore Handshake Process.
Implicit Types (T : string) (s : gmap string Z) (now : Z).

Lemma lookup_foldl_delete (l : list string) s T :
  foldl (fun m token => delete token m) s l !! T
  = if decide (T ∈ l) then None else s !! T.
Proof.
  revert s. induction l as [|k l IH]; intros s; cbn [foldl].
  - case_decide as Hin; [by apply elem_of_nil in Hin | done].
  - rewrite IH. repeat case_decide; try done.
    + rewrite elem_of_cons in *. tauto.
    + destruct (decide (T = k)) as [->|Hne]; [apply lookup_delete_eq|].
      rewrite elem_of_cons in *. tauto.
    + apply lookup_delete_ne. rewrite elem_of_cons in *. intros ->. tauto.
Qed.

Lemma elem_of_expired_keys now s T :
  T ∈ expired_keys now s ↔ ∃ exp, s !! T = Some exp ∧ exp < now.
Proof.
  unfold expired_keys. rewrite list_elem_of_bind. split.
  - intros [[k e] [Hk Hin]]. apply elem_of_map_to_list in Hin.
    case_bool_decide; [|by apply elem_of_nil in Hk].
    apply list_elem_of_singleton in Hk as ->. eauto.
  - intros (e & Hs & Hlt). exists (T, e). split.
    + rewrite bool_decide_eq_true_2 by done. by apply list_elem_of_singleton.
    + by apply elem_of_map_to_list.
Qed.

(** A sweep keeps exactly the entries whose expiration is not before [now]. *)
Lemma lookup_cleanup_expired_tokens now s T :
  cleanup_expired_tokens now s !! T
  = match s !! T with
    | Some exp => if bool_decide (exp < now) then None else Some exp
    | None => None
    end.
Proof.
  unfold cleanup_expired_tokens. rewrite lookup_foldl_delete.
  destruct (s !! T) as [e|] eqn:Hs.
  - case_bool_decide as Hlt.
    + rewrite decide_True; [done|]. apply elem_of_expired_keys. eauto.
    + rewrite decide_False; [done|].
      intros (e' & He' & Hlt')%elem_of_expired_keys.
      rewrite Hs in He'. by simplify_eq.
  - by case_decide.
Qed.

Lemma check_token_store token sid now s :
  (check_token token sid now s).2 = s
  ∨ ∃ t, token = Some t ∧ (check_token token sid now s).2 = delete t s.
Proof.
  unfold check_token. destruct token as [t|]; [|by left].
  destruct (truthy (Some t)); [|by left].
  destruct (s !! t); [|by left].
  right. exists t. by case_bool_decide.
Qed.

(** The handshake touches the store through at most one token check. *)
Lemma handle_media_stream_store messages now s :
  (handle_media_stream messages now s).2 = s
  ∨ ∃ token sid,
      handle_media_stream messages now s = check_token token sid now s.
Proof.
  induction messages as [|[data|] rest IH]; simpl; [by left| |by left].
  case_bool_decide; [right; eauto|].
  case_bool_decide; [done|by left].
Qed.

(** A token that is absent stays absent as long as it is not stored again. *)
Lemma run_ops_absent T ops s :
  Forall (not_generating T) ops → s !! T = None → run_ops ops s !! T = None.
Proof.
  unfold run_ops. intros Hops. revert s.
  induction Hops as [|op ops Hop _ IH]; intros s Hs; simpl; [done|].
  apply IH. destruct op as [token t|t|token sid t]; simpl in *.
  - by rewrite lookup_insert_ne.
  - by rewrite lookup_cleanup_expired_tokens, Hs.
  - destruct (check_token_store token sid t s) as [->|(k & _ & ->)]; [done|].
    destruct (decide (k = T)) as [->|?];
      [apply lookup_delete_eq | by rewrite lookup_delete_ne].
Qed.

(** A stored token is still stored, with the expiration it had, or gone. *)
Lemma run_ops_lookup_cases T ops s :
  Forall (not_generating T) ops →
  run_ops ops s !! T = s !! T ∨ run_ops ops s !! T = None.
Proof.
  unfold run_ops. intros Hops. revert s.
  induction Hops as [|op ops Hop Hops IH]; intros s; simpl; [by left|].
  set (s' := run_op op s).
  assert (s' !! T = s !! T ∨ s' !! T = None) as [Heq|Hnone].
  { subst s'. destruct op as [token t|t|token sid t]; simpl in *.
    - left. by rewrite lookup_insert_ne.
    - rewrite lookup_cleanup_expired_tokens.
      destruct (s !! T); [|by left]. case_bool_decide; [by right|by left].
    - destruct (check_token_store token sid t s) as [->|(k & _ & ->)];
        [by left|].
      destruct (decide (k = T)) as [->|?];
        [right; apply lookup_delete_eq | left; by rewrite lookup_delete_ne]. }
  - rewrite <- Heq. apply IH.
  - right. by apply (run_ops_absent T ops s' Hops).
Qed.

(** A stored token that is neither stored again nor presented is kept until
    the first sweep after its expiration, which removes it. *)
Lemma run_ops_lookup_swept T exp ops s :
  Forall (not_generating T) ops →
  Forall (not_checking T) ops →
  s !! T = Some exp →
  run_ops ops s !! T = if swept_after exp ops then None else Some exp.
Proof.
  intros Hgen. revert s.
  induction Hgen as [|op ops Hop Hgen IH]; intros s Hchk Hs; [done|].
  inversion_clear Hchk as [|?? Hc Hchk'].
  change (run_ops (op :: ops) s) with (run_ops ops (run_op op s)).
  destruct op as [token t|t|token sid t]; simpl in *.
  - apply IH; [done|]. by rewrite lookup_insert_ne.
  - case_bool_decide as Hlt; simpl.
    + apply run_ops_absent; [done|].
      rewrite lookup_cleanup_expired_tokens, Hs.
      by rewrite bool_decide_eq_true_2.
    + apply IH; [done|].
      rewrite lookup_cleanup_expired_tokens, Hs.
      by rewrite bool_decide_eq_false_2.
  - apply IH; [done|].
    destruct (check_token_store token sid t s) as [->|(k & -> & ->)]; [done|].
    rewrite lookup_delete_ne; [done|congruence].
Qed.

End token_store_facts.

Section token_validation.
Import TokenStore Handshake Process.
Implicit Types (T : string) (s : gmap string Z) (now : Z).

Lemma truthy_Some T : T ≠ "" → truthy (Some T) = true.
Proof. intros HT. simpl. by apply negb_true_iff, String.eqb_neq. Qed.

Lemma check_token_valid T exp sid now s :
  T ≠ "" → s !! T = Some exp → now <= exp →
  check_token (Some T) sid now s = (Accepted sid, delete T s).
Proof.
  intros HT Hs Hle. unfold check_token.
  rewrite (truthy_Some T HT), Hs. by rewrite bool_decide_eq_false_2 by lia.
Qed.

Lemma check_token_expired T exp sid now s :
  T ≠ "" → s !! T = Some exp → now > exp →
  check_token (Some T) sid now s = (Closed 1008 "Token expired", delete T s).
Proof.
  intros HT Hs Hgt. unfold check_token.
  rewrite (truthy_Some T HT), Hs. by rewrite bool_decide_eq_true_2 by lia.
Qed.

Lemma check_token_absent T sid now s :
  s !! T = None →
  check_token (Some T) sid now s = (Closed 1008 "Invalid or missing token", s).
Proof.
  intros Hs. unfold check_token. rewrite Hs. by destruct (truthy (Some T)).
Qed.

(** C2. A token value [T] handed out by [generate_websocket_token] validates
    at most once. Whatever the process did to the store since the issuance
    ([before]), the first validation made while [T] is in the store and its
    expiration has not passed is accepted and removes [T] in the same step;
    after it, whatever the process does next ([after]), every validation of
    the value [T] is refused as "Invalid or missing token". [T] is not empty
    ([token_urlsafe(32)] yields 43 characters) and the random source is taken
    not to draw the value [T] a second time. *)
Theorem token_validates_at_most_once T t0 s0 before exp now sid after now' sid' :
  T ≠ "" →
  run_ops before (generate_websocket_token T t0 s0).2 !! T = Some exp →
  now <= exp →
  Forall (not_generating T) after →
  let s := run_ops before (generate_websocket_token T t0 s0).2 in
  let s1 := (check_token (Some T) sid now s).2 in
  (generate_websocket_token T t0 s0).1 = T
  ∧ check_token (Some T) sid now s = (Accepted sid, delete T s)
  ∧ s1 !! T = None
  ∧ check_token (Some T) sid' now' (run_ops after s1)
    = (Closed 1008 "Invalid or missing token", run_ops after s1).
Proof.
  intros HT Hs Hle Hafter s s1. subst s s1.
  rewrite (check_token_valid T exp sid now _ HT Hs Hle). simpl.
  split_and!; [done..|apply lookup_delete_eq|].
  apply check_token_absent, run_ops_absent; [done|apply lookup_delete_eq].
Qed.

Lemma token_validates_at_most_once_witness :
  let s := run_ops [Cleanup 3000000]
             (generate_websocket_token "tokA" 0 ∅).2 in
  let s1 := (check_token (Some "tokA") (Some "MZ1") 5000000 s).2 in
  (generate_websocket_token "tokA" 0 ∅).1 = "tokA"
  ∧ check_token (Some "tokA") (Some "MZ1") 5000000 s
    = (Accepted (Some "MZ1"), delete "tokA" s)
  ∧ s1 !! "tokA" = None
  ∧ check_token (Some "tokA") (Some "MZ2") 6000000
      (run_ops [Generate "tokB" 5500000; Cleanup 5600000] s1)
    = (Closed 1008 "Invalid or missing token",
       run_ops [Generate "tokB" 5500000; Cleanup 5600000] s1).
Proof.
  apply (token_validates_at_most_once "tokA" 0 ∅ [Cleanup 3000000] 60000000
           5000000 (Some "MZ1") [Generate "tokB" 5500000; Cleanup 5600000]
           6000000 (Some "MZ2")).
  - discriminate.
  - vm_compute. reflexivity.
  - lia.
  - repeat constructor. simpl. discriminate.
Defined.

(** C10. A validation of [T] that fails as "Token expired" changes the store
    on that error path: [T] was in the store and is deleted by the failing
    validation, so that afterwards, whatever the process does next (short of
    storing the value [T] again), every validation of [T] fails as "Invalid
    or missing token" and not as "Token expired". *)
Theorem expired_validation_deletes_token T sid now s s' after now' sid' :
  check_token (Some T) sid now s = (Closed 1008 "Token expired", s') →
  Forall (not_generating T) after →
  is_Some (s !! T)
  ∧ s' = delete T s
  ∧ s' ≠ s
  ∧ s' !! T = None
  ∧ check_token (Some T) sid' now' (run_ops after s')
    = (Closed 1008 "Invalid or missing token", run_ops after s').
Proof.
  intros Hchk Hafter. unfold check_token in Hchk.
  destruct (truthy (Some T)); [|discriminate].
  destruct (s !! T) as [exp|] eqn:Hs; [|discriminate].
  case_bool_decide; [|discriminate].
  injection Hchk as <-.
  split_and!; [by eexists|done| |apply lookup_delete_eq|].
  - intros Heq. assert (delete T s !! T = s !! T) as Hl by by rewrite Heq.
    rewrite lookup_delete_eq, Hs in Hl. discriminate.
  - apply check_token_absent, run_ops_absent; [done|apply lookup_delete_eq].
Qed.

Lemma expired_validation_deletes_token_witness :
  let s := (generate_websocket_token "tokA" 0 ∅).2 in
  is_Some (s !! "tokA")
  ∧ delete "tokA" s = delete "tokA" s
  ∧ delete "tokA" s ≠ s
  ∧ delete "tokA" s !! "tokA" = None
  ∧ check_token (Some "tokA") (Some "MZ2") 62000000
      (run_ops [Cleanup 61500000] (delete "tokA" s))
    = (Closed 1008 "Invalid or missing token",
       run_ops [Cleanup 61500000] (delete "tokA" s)).
Proof.
  apply (expired_validation_deletes_token "tokA" (Some "MZ1") 61000000
           (generate_websocket_token "tokA" 0 ∅).2 _ [Cleanup 61500000]
           62000000 (Some "MZ2")).
  - vm_compute. reflexivity.
  - repeat constructor.
Defined.

End token_validation.

Section token_expiry.
Import TokenStore Handshake Process.
Implicit Types (T : string) (s : gmap string Z) (now : Z).

(** C6, counterexample. A first call is admitted at time 0 and is handed
    ["tokA"]; a second call is admitted 61 seconds later, which sweeps the
    store; the connection that presents ["tokA"] at 62 seconds, never
    presented before, is not refused as "Token expired": the sweep has
    deleted the token and the refusal is "Invalid or missing token". *)
Lemma expired_after_sweep_is_invalid :
  let s1 := (handle_incoming_call true "tokA" 0 0 ∅).2 in
  let s2 := (handle_incoming_call true "tokB" 61000000 61000000 s1).2 in
  s1 !! "tokA" = Some (0 + SIXTY_SECONDS)
  ∧ 62000000 > 0 + SIXTY_SECONDS
  ∧ (handle_media_stream [connected; start (Some "tokA") (Some "MZ1")]
       62000000 s2).1
    = Closed 1008 "Invalid or missing token"
  ∧ (handle_media_stream [connected; start (Some "tokA") (Some "MZ1")]
       62000000 s2).1
    ≠ Closed 1008 "Token expired".
Proof.
  split_and!; [vm_compute; reflexivity | reflexivity | vm_compute; reflexivity |].
  vm_compute. discriminate.
Qed.

(** C6, amended. The expiration stored for an issued token is its issuance
    time plus 60 seconds. A validation of [T] attempted later than that, [T]
    having been neither presented nor stored again in between, never
    succeeds: it fails as "Token expired" (deleting [T]) when no sweep ran
    after the expiration, and as "Invalid or missing token" when one did,
    since that sweep removed [T] from the store. *)
Theorem late_validation_fails T t0 s0 ops now sid :
  T ≠ "" →
  Forall (not_generating T) ops →
  Forall (not_checking T) ops →
  now > t0 + SIXTY_SECONDS →
  let issued := (generate_websocket_token T t0 s0).2 in
  let s := run_ops ops issued in
  issued !! T = Some (t0 + SIXTY_SECONDS)
  ∧ check_token (Some T) sid now s
    = if swept_after (t0 + SIXTY_SECONDS) ops
      then (Closed 1008 "Invalid or missing token", s)
      else (Closed 1008 "Token expired", delete T s).
Proof.
  intros HT Hgen Hchk Hlate issued s.
  assert (issued !! T = Some (t0 + SIXTY_SECONDS)) as Hissued
    by apply lookup_insert_eq.
  split; [done|].
  pose proof (run_ops_lookup_swept T _ ops issued Hgen Hchk Hissued) as Hs.
  fold s in Hs. destruct (swept_after _ ops).
  - by apply check_token_absent.
  - by apply (check_token_expired T (t0 + SIXTY_SECONDS)).
Qed.

Lemma late_validation_fails_witness :
  let issued := (generate_websocket_token "tokA" 0 ∅).2 in
  let s := run_ops [Cleanup 30000000; Generate "tokB" 30000000] issued in
  issued !! "tokA" = Some (0 + SIXTY_SECONDS)
  ∧ check_token (Some "tokA") (Some "MZ1") 62000000 s
    = (Closed 1008 "Token expired", delete "tokA" s).
Proof.
  apply (late_validation_fails "tokA" 0 ∅
           [Cleanup 30000000; Generate "tokB" 30000000] 62000000 (Some "MZ1")).
  - discriminate.
  - repeat constructor. simpl. discriminate.
  - repeat constructor.
  - reflexivity.
Defined.

End token_expiry.

(** ** Handshake *)

Section handshake_facts.
Import TokenStore Handshake Process Relay Scenario.
Implicit Types (T S : string) (s : gmap string Z) (now : Z).

(** Messages whose event is [connected] are skipped, whatever else they
    carry. *)
Lemma handle_media_stream_skip skipped rest now s :
  Forall (fun m => has_event "connected" m = true) skipped →
  handle_media_stream (skipped ++ rest) now s
  = handle_media_stream rest now s.
Proof.
  induction 1 as [|m skipped Hm _ IH]; [done|].
  destruct m as [data|]; [|discriminate]. cbn [app handle_media_stream].
  apply bool_decide_eq_true in Hm. rewrite Hm.
  rewrite bool_decide_eq_false_2 by done.
  by rewrite bool_decide_eq_true_2.
Qed.

Lemma handle_media_stream_connected n rest now s :
  handle_media_stream (repeat connected n ++ rest) now s
  = handle_media_stream rest now s.
Proof.
  apply handle_media_stream_skip, Forall_forall. intros m Hin.
  by apply list_elem_of_In, repeat_spec in Hin as ->.
Qed.

(** C7. Any number of [connected] events, none included, followed by a
    [start] event that carries a token [T] that is in the store and not
    expired and a stream identifier [S]: the negotiation is accepted, the
    token is consumed, and the session starts with [stream_sid = S], the
    latest media timestamp at 0, no last assistant item, no response start
    timestamp and an empty mark queue. *)
Theorem handshake_start_initializes_session skipped T S exp now s :
  Forall (fun m => has_event "connected" m = true) skipped →
  T ≠ "" → s !! T = Some exp → now <= exp →
  handle_media_stream (skipped ++ [Handshake.start (Some T) (Some S)]) now s
  = (Accepted (Some S), delete T s)
  ∧ session_after_handshake
      (handle_media_stream
         (skipped ++ [Handshake.start (Some T) (Some S)]) now s).1
    = Some {| stream_sid := Some S;
              latest_media_timestamp := 0;
              last_assistant_item := None;
              mark_queue := [];
              response_start_timestamp_twilio := None |}.
Proof.
  intros Hskipped HT Hs Hle. rewrite handle_media_stream_skip by done.
  change (handle_media_stream [Handshake.start (Some T) (Some S)] now s)
    with (check_token (Some T) (Some S) now s).
  by rewrite (check_token_valid T exp (Some S) now s HT Hs Hle).
Qed.

Lemma handshake_start_initializes_session_witness :
  let s := (generate_websocket_token "tokA" 0 ∅).2 in
  (handle_media_stream [Handshake.start (Some "tokA") (Some "MZ1")] 5000000 s
   = (Accepted (Some "MZ1"), delete "tokA" s)
   ∧ session_after_handshake
       (handle_media_stream [Handshake.start (Some "tokA") (Some "MZ1")]
          5000000 s).1
     = Some {| stream_sid := Some "MZ1";
               latest_media_timestamp := 0;
               last_assistant_item := None;
               mark_queue := [];
               response_start_timestamp_twilio := None |})
  ∧ (handle_media_stream
       [connected; connected; Handshake.start (Some "tokA") (Some "MZ1")]
       5000000 s
     = (Accepted (Some "MZ1"), delete "tokA" s)
     ∧ session_after_handshake
         (handle_media_stream
            [connected; connected; Handshake.start (Some "tokA") (Some "MZ1")]
            5000000 s).1
       = Some {| stream_sid := Some "MZ1";
                 latest_media_timestamp := 0;
                 last_assistant_item := None;
                 mark_queue := [];
                 response_start_timestamp_twilio := None |}).
Proof.
  split.
  - apply (handshake_start_initializes_session [] "tokA" "MZ1" 60000000
             5000000 (generate_websocket_token "tokA" 0 ∅).2).
    + constructor.
    + discriminate.
    + vm_compute. reflexivity.
    + lia.
  - apply (handshake_start_initializes_session [connected; connected]
             "tokA" "MZ1" 60000000 5000000
             (generate_websocket_token "tokA" 0 ∅).2).
    + repeat constructor.
    + discriminate.
    + vm_compute. reflexivity.
    + lia.
Defined.

(** C9, counterexample. No bound on the number of messages read makes the
    negotiation end when no [start] event arrives: however large the bound,
    after that many [connected] events the loop is suspended in its next
    read, and it has closed nothing. *)
Lemma handshake_has_no_bounded_wait :
  ¬ ∃ bound : nat, ∀ messages now s,
      Forall (fun m => has_event "start" m = false) messages →
      (bound <= length messages)%nat →
      ∃ code reason, (handle_media_stream messages now s).1 = Closed code reason.
Proof.
  intros [bound Hbound].
  destruct (Hbound (repeat connected bound) 0 ∅) as (code & reason & Hclosed).
  - apply Forall_forall. intros m Hin.
    by apply list_elem_of_In, repeat_spec in Hin as ->.
  - by rewrite repeat_length.
  - rewrite <- (app_nil_r (repeat connected bound)) in Hclosed.
    rewrite handle_media_stream_connected in Hclosed. discriminate.
Qed.

(** C9, amended. With no [start] event among the messages, the negotiation
    ends only through a message that is not [connected] (closed with code
    1008, "Unexpected event") or through a read that raises, as when the peer
    disconnects (closed with code 1011, "Authentication error"); as long as
    only [connected] events have arrived the loop is still waiting for the
    next message, with no time limit. The token store is left as it was. *)
Theorem handshake_without_start messages now s :
  Forall (fun m => has_event "start" m = false) messages →
  handle_media_stream messages now s
  = (match find (fun m => negb (has_event "connected" m)) messages with
     | None => Waiting
     | Some Raised => Closed 1011 "Authentication error"
     | Some (Text _) => Closed 1008 "Unexpected event"
     end, s).
Proof.
  induction 1 as [|m messages Hm _ IH]; [done|].
  destruct m as [data|]; [|done]. simpl in *.
  rewrite Hm. destruct (bool_decide (hs_event data = Some "connected")); done.
Qed.

Lemma handshake_without_start_witness :
  handle_media_stream
    [connected; connected;
     Text {| hs_event := Some "media"; hs_token := None; hs_streamSid := None |}]
    0 ∅
  = (Closed 1008 "Unexpected event", ∅)
  ∧ handle_media_stream [connected; connected; connected] 0 ∅ = (Waiting, ∅)
  ∧ handle_media_stream [connected; Raised] 0 ∅
    = (Closed 1011 "Authentication error", ∅).
Proof.
  split_and!.
  - apply (handshake_without_start
             [connected; connected;
              Text {| hs_event := Some "media"; hs_token := None;
                      hs_streamSid := None |}] 0 ∅).
    repeat constructor.
  - apply (handshake_without_start [connected; connected; connected] 0 ∅).
    repeat constructor.
  - apply (handshake_without_start [connected; Raised] 0 ∅).
    repeat constructor.
Defined.

End handshake_facts.

(** ** Base64: decoding what the encoder produced gives the bytes back *)

Section base64_facts.
Import Base64.
Local Open Scope N_scope.

(** Exhaustive checks over an initial segment of [N]. *)
Lemma forallb_below (k : nat) (P : N → bool) :
  forallb P (map N.of_nat (seq 0 k)) = true →
  ∀ n, n < N.of_nat k → P n = true.
Proof.
  intros Hall n Hn. rewrite forallb_forall in Hall. apply Hall.
  rewrite <- (N2Nat.id n). apply in_map, in_seq. lia.
Qed.

Lemma forallb_below2 (k1 k2 : nat) (P : N → N → bool) :
  forallb (fun a => forallb (P a) (map N.of_nat (seq 0 k2)))
    (map N.of_nat (seq 0 k1)) = true →
  ∀ a b, a < N.of_nat k1 → b < N.of_nat k2 → P a b = true.
Proof.
  intros Hall a b Ha Hb.
  apply (forallb_below k2 (P a)); [|done].
  by apply (forallb_below k1 (fun a => forallb (P a) _)).
Qed.

Lemma forallb_below3 (k1 k2 k3 : nat) (P : N → N → N → bool) :
  forallb (fun a => forallb (fun b => forallb (P a b) (map N.of_nat (seq 0 k3)))
                      (map N.of_nat (seq 0 k2)))
    (map N.of_nat (seq 0 k1)) = true →
  ∀ a b c, a < N.of_nat k1 → b < N.of_nat k2 → c < N.of_nat k3 →
           P a b c = true.
Proof.
  intros Hall a b c Ha Hb Hc.
  apply (forallb_below k3 (P a b)); [|done].
  by apply (forallb_below2 k1 k2 (fun a b => forallb (P a b) _)).
Qed.

(** The alphabet: 64 distinct characters, none of them the padding. *)
Lemma a2b_b2a v : v < 64 → a2b (b2a v) = Some v.
Proof.
  intros Hv.
  apply (bool_decide_eq_true_1 (a2b (b2a v) = Some v)).
  revert v Hv.
  apply (forallb_below 64 (fun v => bool_decide (a2b (b2a v) = Some v))).
  vm_compute. reflexivity.
Qed.

Lemma b2a_not_pad v : v < 64 → Ascii.eqb (b2a v) BASE64_PAD = false.
Proof.
  intros Hv. apply negb_true_iff. revert v Hv.
  apply (forallb_below 64 (fun v => negb (Ascii.eqb (b2a v) BASE64_PAD))).
  vm_compute. reflexivity.
Qed.

Lemma b2a_is_ascii v : (N_of_ascii (b2a v) <? 128) = true.
Proof.
  destruct (N.ltb_spec v 64) as [Hv|Hv].
  - revert v Hv.
    apply (forallb_below 64 (fun v => N_of_ascii (b2a v) <? 128)).
    vm_compute. reflexivity.
  - unfold b2a. rewrite nth_overflow; [done|].
    change (length table_b2a_base64) with 64%nat. lia.
Qed.

(** One character of the alphabet, at each position of a quad. *)
Lemma a2b_base64_loop_pos0 v rest leftchar pads :
  v < 64 →
  a2b_base64_loop (b2a v :: rest) 0 leftchar pads = a2b_base64_loop rest 1 v 0.
Proof.
  intros Hv. cbn [a2b_base64_loop]. by rewrite b2a_not_pad, a2b_b2a.
Qed.

Lemma a2b_base64_loop_pos1 v rest leftchar pads :
  v < 64 →
  a2b_base64_loop (b2a v :: rest) 1 leftchar pads
  = cons (byte_of (N.lor (N.shiftl leftchar 2) (N.shiftr v 4)))
      <$> a2b_base64_loop rest 2 (N.land v 15) 0.
Proof.
  intros Hv. cbn [a2b_base64_loop]. by rewrite b2a_not_pad, a2b_b2a.
Qed.

Lemma a2b_base64_loop_pos2 v rest leftchar pads :
  v < 64 →
  a2b_base64_loop (b2a v :: rest) 2 leftchar pads
  = cons (byte_of (N.lor (N.shiftl leftchar 4) (N.shiftr v 2)))
      <$> a2b_base64_loop rest 3 (N.land v 3) 0.
Proof.
  intros Hv. cbn [a2b_base64_loop]. by rewrite b2a_not_pad, a2b_b2a.
Qed.

Lemma a2b_base64_loop_pos3 v rest leftchar pads :
  v < 64 →
  a2b_base64_loop (b2a v :: rest) 3 leftchar pads
  = cons (byte_of (N.lor (N.shiftl leftchar 6) v))
      <$> a2b_base64_loop rest 0 0 0.
Proof.
  intros Hv. cbn [a2b_base64_loop]. by rewrite b2a_not_pad, a2b_b2a.
Qed.

(** The bit arithmetic of a quad, checked on every value of its operands:
    [a], [b], [c] are bytes, [p] two bits, [r] four bits. *)
Lemma sextet0_bound a : a < 256 → N.shiftr a 2 < 64.
Proof.
  intros Ha. apply N.ltb_lt. revert a Ha.
  apply (forallb_below 256 (fun a => N.shiftr a 2 <? 64)).
  vm_compute. reflexivity.
Qed.

Lemma sextet1_bound a b :
  a < 256 → b < 256 → N.lor (N.shiftl (N.land a 3) 4) (N.shiftr b 4) < 64.
Proof.
  intros Ha Hb. apply N.ltb_lt. revert a b Ha Hb.
  apply (forallb_below2 256 256
           (fun a b => N.lor (N.shiftl (N.land a 3) 4) (N.shiftr b 4) <? 64)).
  vm_compute. reflexivity.
Qed.

Lemma sextet2_bound b c :
  b < 256 → c < 256 → N.lor (N.shiftl (N.land b 15) 2) (N.shiftr c 6) < 64.
Proof.
  intros Hb Hc. apply N.ltb_lt. revert b c Hb Hc.
  apply (forallb_below2 256 256
           (fun b c => N.lor (N.shiftl (N.land b 15) 2) (N.shiftr c 6) <? 64)).
  vm_compute. reflexivity.
Qed.

Lemma sextet3_bound c : c < 256 → N.land c 63 < 64.
Proof.
  intros Hc. apply N.ltb_lt. revert c Hc.
  apply (forallb_below 256 (fun c => N.land c 63 <? 64)).
  vm_compute. reflexivity.
Qed.

Lemma sextet1_tail_bound a : a < 256 → N.shiftl (N.land a 3) 4 < 64.
Proof.
  intros Ha. apply N.ltb_lt. revert a Ha.
  apply (forallb_below 256 (fun a => N.shiftl (N.land a 3) 4 <? 64)).
  vm_compute. reflexivity.
Qed.

Lemma sextet2_tail_bound b : b < 256 → N.shiftl (N.land b 15) 2 < 64.
Proof.
  intros Hb. apply N.ltb_lt. revert b Hb.
  apply (forallb_below 256 (fun b => N.shiftl (N.land b 15) 2 <? 64)).
  vm_compute. reflexivity.
Qed.

Lemma two_bits a : a < 256 → N.land a 3 < 4.
Proof.
  intros Ha. apply N.ltb_lt. revert a Ha.
  apply (forallb_below 256 (fun a => N.land a 3 <? 4)).
  vm_compute. reflexivity.
Qed.

Lemma top_two_bits c : c < 256 → N.shiftr c 6 < 4.
Proof.
  intros Hc. apply N.ltb_lt. revert c Hc.
  apply (forallb_below 256 (fun c => N.shiftr c 6 <? 4)).
  vm_compute. reflexivity.
Qed.

Lemma top_four_bits b : b < 256 → N.shiftr b 4 < 16.
Proof.
  intros Hb. apply N.ltb_lt. revert b Hb.
  apply (forallb_below 256 (fun b => N.shiftr b 4 <? 16)).
  vm_compute. reflexivity.
Qed.

(** First byte of a quad: the six bits of the first character and the two
    high bits of the second, whatever the second's low four bits [r] are. *)
Lemma first_byte a r :
  a < 256 → r < 16 →
  N.land (N.lor (N.shiftl (N.shiftr a 2) 2)
            (N.shiftr (N.lor (N.shiftl (N.land a 3) 4) r) 4)) 255 = a.
Proof.
  intros Ha Hr. apply N.eqb_eq. revert a r Ha Hr.
  apply (forallb_below2 256 16
           (fun a r =>
              N.land (N.lor (N.shiftl (N.shiftr a 2) 2)
                        (N.shiftr (N.lor (N.shiftl (N.land a 3) 4) r) 4)) 255
              =? a)).
  vm_compute. reflexivity.
Qed.

(** Second byte: the low four bits of the second character and the high
    four of the third, whatever [p] and [q] sit next to them. *)
Lemma second_byte p b q :
  p < 4 → b < 256 → q < 4 →
  N.land (N.lor
            (N.shiftl (N.land (N.lor (N.shiftl p 4) (N.shiftr b 4)) 15) 4)
            (N.shiftr (N.lor (N.shiftl (N.land b 15) 2) q) 2)) 255 = b.
Proof.
  intros Hp Hb Hq. apply N.eqb_eq. revert p b q Hp Hb Hq.
  apply (forallb_below3 4 256 4
           (fun p b q =>
              N.land (N.lor
                        (N.shiftl
                           (N.land (N.lor (N.shiftl p 4) (N.shiftr b 4)) 15) 4)
                        (N.shiftr (N.lor (N.shiftl (N.land b 15) 2) q) 2)) 255
              =? b)).
  vm_compute. reflexivity.
Qed.

(** Third byte: the low two bits of the third character and the fourth. *)
Lemma third_byte r c :
  r < 16 → c < 256 →
  N.land (N.lor
            (N.shiftl (N.land (N.lor (N.shiftl r 2) (N.shiftr c 6)) 3) 6)
            (N.land c 63)) 255 = c.
Proof.
  intros Hr Hc. apply N.eqb_eq. revert r c Hr Hc.
  apply (forallb_below2 16 256
           (fun r c =>
              N.land (N.lor
                        (N.shiftl
                           (N.land (N.lor (N.shiftl r 2) (N.shiftr c 6)) 3) 6)
                        (N.land c 63)) 255
              =? c)).
  vm_compute. reflexivity.
Qed.

Lemma low_four_bits b : b < 256 → N.land b 15 < 16.
Proof.
  intros Hb. apply N.ltb_lt. revert b Hb.
  apply (forallb_below 256 (fun b => N.land b 15 <? 16)).
  vm_compute. reflexivity.
Qed.

Lemma N_of_ascii_bound x : N_of_ascii x < 256.
Proof. apply N_ascii_bounded. Qed.

Lemma byte_of_first x r :
  r < 16 →
  byte_of (N.lor (N.shiftl (N.shiftr (N_of_ascii x) 2) 2)
             (N.shiftr (N.lor (N.shiftl (N.land (N_of_ascii x) 3) 4) r) 4))
  = x.
Proof.
  intros Hr. unfold byte_of.
  rewrite first_byte by (apply N_of_ascii_bound || done).
  apply ascii_N_embedding.
Qed.

Lemma byte_of_second p y q :
  p < 4 → q < 4 →
  byte_of (N.lor
             (N.shiftl
                (N.land (N.lor (N.shiftl p 4) (N.shiftr (N_of_ascii y) 4)) 15) 4)
             (N.shiftr (N.lor (N.shiftl (N.land (N_of_ascii y) 15) 2) q) 2))
  = y.
Proof.
  intros Hp Hq. unfold byte_of.
  rewrite second_byte by (apply N_of_ascii_bound || done).
  apply ascii_N_embedding.
Qed.

Lemma byte_of_third r z :
  r < 16 →
  byte_of (N.lor
             (N.shiftl
                (N.land (N.lor (N.shiftl r 2) (N.shiftr (N_of_ascii z) 6)) 3) 6)
             (N.land (N_of_ascii z) 63))
  = z.
Proof.
  intros Hr. unfold byte_of.
  rewrite third_byte by (apply N_of_ascii_bound || done).
  apply ascii_N_embedding.
Qed.

(** Induction on a list of bytes, three at a time. *)
Lemma list_ind3 {A} (P : list A → Prop) :
  P [] → (∀ x, P [x]) → (∀ x y, P [x; y]) →
  (∀ x y z l, P l → P (x :: y :: z :: l)) →
  ∀ l, P l.
Proof.
  intros H0 H1 H2 H3 l.
  cut (P l ∧ (∀ x, P (x :: l)) ∧ (∀ x y, P (x :: y :: l))); [tauto|].
  induction l as [|a l (IH0 & IH1 & IH2)]; [by auto|].
  split; [apply IH1|]. split; [intros x; apply IH2|].
  intros x y. by apply H3.
Qed.

(** A full quad gives its three bytes back and leaves the decoder at the
    start of the next quad. *)
Lemma a2b_base64_loop_quad x y z rest leftchar pads :
  a2b_base64_loop (b2a_base64 (x :: y :: z :: rest)) 0 leftchar pads
  = (fun bs => x :: y :: z :: bs)
      <$> a2b_base64_loop (b2a_base64 rest) 0 0 0.
Proof.
  cbn [b2a_base64].
  pose proof (N_of_ascii_bound x) as Hx.
  pose proof (N_of_ascii_bound y) as Hy.
  pose proof (N_of_ascii_bound z) as Hz.
  rewrite a2b_base64_loop_pos0 by by apply sextet0_bound.
  rewrite a2b_base64_loop_pos1 by by apply sextet1_bound.
  rewrite a2b_base64_loop_pos2 by by apply sextet2_bound.
  rewrite a2b_base64_loop_pos3 by by apply sextet3_bound.
  rewrite byte_of_first by by apply top_four_bits.
  rewrite byte_of_second by (by apply two_bits || by apply top_two_bits).
  rewrite byte_of_third by by apply low_four_bits.
  by destruct (a2b_base64_loop (b2a_base64 rest) 0 0 0).
Qed.

(** [binascii.a2b_base64(binascii.b2a_base64(bs, newline=False)) == bs]. *)
Lemma a2b_base64_loop_b2a_base64 bs :
  ∀ leftchar pads,
    a2b_base64_loop (b2a_base64 bs) 0 leftchar pads = Some bs.
Proof.
  induction bs as [|x|x y|x y z rest IH] using list_ind3; intros leftchar pads.
  - reflexivity.
  - cbn [b2a_base64].
    pose proof (N_of_ascii_bound x) as Hx.
    rewrite a2b_base64_loop_pos0 by by apply sextet0_bound.
    rewrite a2b_base64_loop_pos1 by by apply sextet1_tail_bound.
    rewrite <- (N.lor_0_r (N.shiftl (N.land (N_of_ascii x) 3) 4)) at 1.
    rewrite byte_of_first by done.
    reflexivity.
  - cbn [b2a_base64].
    pose proof (N_of_ascii_bound x) as Hx.
    pose proof (N_of_ascii_bound y) as Hy.
    rewrite a2b_base64_loop_pos0 by by apply sextet0_bound.
    rewrite a2b_base64_loop_pos1 by by apply sextet1_bound.
    rewrite a2b_base64_loop_pos2 by by apply sextet2_tail_bound.
    rewrite byte_of_first by by apply top_four_bits.
    rewrite <- (N.lor_0_r (N.shiftl (N.land (N_of_ascii y) 15) 2)) at 1.
    rewrite byte_of_second by (by apply two_bits || done).
    reflexivity.
  - by rewrite a2b_base64_loop_quad, IH.
Qed.

Lemma b2a_base64_is_ascii bs :
  forallb (fun c => N_of_ascii c <? 128) (b2a_base64 bs) = true.
Proof.
  induction bs as [|x|x y|x y z rest IH] using list_ind3;
    cbn [b2a_base64 forallb]; rewrite ?b2a_is_ascii, ?IH; reflexivity.
Qed.

Lemma b64decode_b64encode bs :
  b64decode (decode_utf8 (b64encode bs)) = Some bs.
Proof.
  unfold b64decode, encode_ascii, decode_utf8, b64encode.
  rewrite list_ascii_of_string_of_list_ascii, b2a_base64_is_ascii.
  apply a2b_base64_loop_b2a_base64.
Qed.

End base64_facts.

(** ** Model-to-inbound pump and interruption controller *)

Section relay_facts.
Import Base64 Relay Scenario.
Implicit Types (st : session) (response : openai_response).

Lemma audio_payload_of_b64encode audio :
  audio_payload_of (decode_utf8 (b64encode audio))
  = Some (decode_utf8 (b64encode audio)).
Proof. unfold audio_payload_of. by rewrite b64decode_b64encode. Qed.

(** An event that is not an audio delta sends nothing from lines 235-253. *)
Lemma forward_audio_delta_other response st :
  type response ≠ Some "response.output_audio.delta" →
  forward_audio_delta response st = Continue st [].
Proof.
  intros Hty. unfold forward_audio_delta.
  destruct (delta response); [|done]. by rewrite bool_decide_eq_false_2.
Qed.

(** An event that is not a speech start does nothing in lines 256-260. *)
Lemma interrupt_on_speech_started_other response st :
  type response ≠ Some "input_audio_buffer.speech_started" →
  interrupt_on_speech_started response st = (st, []).
Proof.
  intros Hty. unfold interrupt_on_speech_started.
  by rewrite bool_decide_eq_false_2.
Qed.


(** The same for any payload that line 236 accepts: what is sent is the
    re-encoding [forwarded] of the bytes it decodes to. *)
Lemma send_to_twilio_delta payload forwarded item st :
  audio_payload_of payload = Some forwarded →
  send_to_twilio
    {| type := Some "response.output_audio.delta";
       delta := Some payload; item_id := item |} st
  = let st1 :=
      if truthy item && negb (bool_decide (item = last_assistant_item st))
      then {| stream_sid := stream_sid st;
              latest_media_timestamp := latest_media_timestamp st;
              last_assistant_item := item;
              mark_queue := mark_queue st;
              response_start_timestamp_twilio :=
                Some (latest_media_timestamp st) |}
      else st in
    Continue (send_mark st1).1
      (Twilio_media (stream_sid st) forwarded :: (send_mark st1).2).
Proof.
  intros Hpayload.
  unfold send_to_twilio, forward_audio_delta. cbn [type delta item_id].
  rewrite bool_decide_eq_true_2 by done.
  rewrite Hpayload. cbn zeta.
  destruct (send_mark _) as [st2 marks].
  rewrite interrupt_on_speech_started_other by done.
  cbn [fst snd]. by rewrite app_nil_r.
Qed.


(** The controller does nothing when one of its three guards fails. *)
Lemma speech_started_guarded response st :
  type response = Some "input_audio_buffer.speech_started" →
  truthy (last_assistant_item st) = false
  ∨ mark_queue st = []
  ∨ response_start_timestamp_twilio st = None →
  send_to_twilio response st = Continue st [].
Proof.
  intros Hty Hguard. unfold send_to_twilio. rewrite Hty.
  rewrite forward_audio_delta_other by (by rewrite Hty).
  unfold interrupt_on_speech_started, handle_speech_started_event.
  rewrite Hty, bool_decide_eq_true_2 by done.
  destruct Hguard as [->|[->| ->]]; [done|by destruct (truthy _)|].
  destruct (truthy _); [|done]. by destruct (mark_queue st).
Qed.

(** C8. A speech start that arrives while there is no last assistant item,
    or while the mark queue is empty, or while no response start timestamp is
    set, sends neither a truncate nor a clear command, nor anything else,
    leaves the session as it is, and the pump goes on. *)
Theorem speech_started_without_response_is_noop response st :
  type response = Some "input_audio_buffer.speech_started" →
  last_assistant_item st = None
  ∨ mark_queue st = []
  ∨ response_start_timestamp_twilio st = None →
  send_to_twilio response st = Continue st [].
Proof.
  intros Hty [Hitem|Hrest]; apply speech_started_guarded; try done.
  - left. by rewrite Hitem.
  - by right.
Qed.

Lemma speech_started_without_response_is_noop_witness :
  let st := {| stream_sid := Some "MZ1";
               latest_media_timestamp := 100;
               last_assistant_item := Some "item1";
               mark_queue := [];
               response_start_timestamp_twilio := Some 40 |} in
  send_to_twilio
    {| type := Some "input_audio_buffer.speech_started";
       delta := None; item_id := None |} st
  = Continue st [].
Proof.
  apply (speech_started_without_response_is_noop
           {| type := Some "input_audio_buffer.speech_started";
              delta := None; item_id := None |}
           {| stream_sid := Some "MZ1";
              latest_media_timestamp := 100;
              last_assistant_item := Some "item1";
              mark_queue := [];
              response_start_timestamp_twilio := Some 40 |}).
  - reflexivity.
  - right. left. reflexivity.
Defined.

(** The controller at work: its three guards hold. *)
Lemma send_to_twilio_speech_started response st item mark marks start :
  type response = Some "input_audio_buffer.speech_started" →
  last_assistant_item st = Some item → item ≠ "" →
  mark_queue st = mark :: marks →
  response_start_timestamp_twilio st = Some start →
  send_to_twilio response st
  = Continue
      {| stream_sid := stream_sid st;
         latest_media_timestamp := latest_media_timestamp st;
         last_assistant_item := None;
         mark_queue := [];
         response_start_timestamp_twilio := None |}
      [OpenAI_truncate item 0 (latest_media_timestamp st - start);
       Twilio_clear (stream_sid st)].
Proof.
  intros Hty Hitem Hne Hmarks Hstart. unfold send_to_twilio. rewrite Hty.
  rewrite forward_audio_delta_other by (by rewrite Hty).
  unfold interrupt_on_speech_started, handle_speech_started_event.
  rewrite Hty, bool_decide_eq_true_2 by done.
  rewrite Hitem, Hmarks, Hstart, (truthy_Some item Hne). reflexivity.
Qed.

(** C4, counterexample. Media frames at 40 and, after the response began,
    at 10: the speech start sends a truncate command whose offset is
    [10 - 40 = -30], not 0. *)
Lemma truncation_offset_is_not_clamped :
  (run [media 40 "AAAA"; audioDelta "item1" ["x"; "y"; "z"]%char;
        media 10 "AAAA"; speechStarted]
     (relay_after_handshake (Some "MZ1"))).2
  = [OpenAI_audio_append "AAAA";
     Twilio_media (Some "MZ1") "eHl6"; Twilio_mark (Some "MZ1") "responsePart";
     OpenAI_audio_append "AAAA";
     OpenAI_truncate "item1" 0 (-30); Twilio_clear (Some "MZ1")]
  ∧ -30 ≠ 0.
Proof. split; [vm_compute; reflexivity | discriminate]. Qed.

(** C4, amended. When the controller runs (a last assistant item, a mark
    queue that is not empty, a response start timestamp), the offset of the
    truncate command it sends is the difference
    [latest_media_timestamp - response_start_timestamp_twilio] as it is,
    negative when the latest timestamp is the smaller one; computing it raises
    nothing and the pump goes on, with the clear command sent and the three
    fields reset. *)
Theorem truncation_offset_is_the_difference response st item mark marks start :
  type response = Some "input_audio_buffer.speech_started" →
  last_assistant_item st = Some item → item ≠ "" →
  mark_queue st = mark :: marks →
  response_start_timestamp_twilio st = Some start →
  send_to_twilio response st
  = Continue
      {| stream_sid := stream_sid st;
         latest_media_timestamp := latest_media_timestamp st;
         last_assistant_item := None;
         mark_queue := [];
         response_start_timestamp_twilio := None |}
      [OpenAI_truncate item 0 (latest_media_timestamp st - start);
       Twilio_clear (stream_sid st)].
Proof. apply send_to_twilio_speech_started. Qed.

Lemma truncation_offset_is_the_difference_witness :
  send_to_twilio
    {| type := Some "input_audio_buffer.speech_started";
       delta := None; item_id := None |}
    {| stream_sid := Some "MZ1";
       latest_media_timestamp := 10;
       last_assistant_item := Some "item1";
       mark_queue := ["responsePart"];
       response_start_timestamp_twilio := Some 40 |}
  = Continue
      {| stream_sid := Some "MZ1";
         latest_media_timestamp := 10;
         last_assistant_item := None;
         mark_queue := [];
         response_start_timestamp_twilio := None |}
      [OpenAI_truncate "item1" 0 (10 - 40); Twilio_clear (Some "MZ1")].
Proof.
  apply (truncation_offset_is_the_difference
           {| type := Some "input_audio_buffer.speech_started";
              delta := None; item_id := None |}
           {| stream_sid := Some "MZ1";
              latest_media_timestamp := 10;
              last_assistant_item := Some "item1";
              mark_queue := ["responsePart"];
              response_start_timestamp_twilio := Some 40 |}
           "item1" "responsePart" [] 40).
  - reflexivity.
  - reflexivity.
  - discriminate.
  - reflexivity.
  - reflexivity.
Defined.

End relay_facts.

(** ** Both pumps: the interruption scenario and a restarted stream *)

Section scenario_facts.
Import Base64 Handshake Relay Scenario.
Implicit Types (st : session) (r : relay) (sid : option string).

Lemma run_media timestamp payload rest r :
  run (media timestamp payload :: rest) r
  = let '(r', outs) :=
      run rest
        {| shared :=
             {| stream_sid := stream_sid (shared r);
                latest_media_timestamp := timestamp;
                last_assistant_item := last_assistant_item (shared r);
                mark_queue := mark_queue (shared r);
                response_start_timestamp_twilio :=
                  response_start_timestamp_twilio (shared r) |};
           locals := locals r;
           sender_running := sender_running r |} in
    (r', OpenAI_audio_append payload :: outs).
Proof. reflexivity. Qed.

Lemma run_FromOpenAI response rest r st out :
  sender_running r = true →
  send_to_twilio response (shared r) = Continue st out →
  run (FromOpenAI response :: rest) r
  = let '(r', outs) :=
      run rest {| shared := st; locals := locals r; sender_running := true |} in
    (r', (out ++ outs)%list).
Proof. intros Hrun Hstep. cbn [run]. by rewrite Hrun, Hstep. Qed.

(** Media frames at 0, 20 and 40, then the first audio delta of an item, on
    a session whose stream identifier is not empty; [forwarded] is what line
    236 makes of the delta's payload. *)
Lemma run_first_response sid p0 p1 p2 payload forwarded rest :
  truthy sid = true →
  audio_payload_of payload = Some forwarded →
  run ([media 0 p0; media 20 p1; media 40 p2; audioDeltaEvent "item1" payload]
         ++ rest)
    (relay_after_handshake sid)
  = let '(r', outs) :=
      run rest
        {| shared :=
             {| stream_sid := sid;
                latest_media_timestamp := 40;
                last_assistant_item := Some "item1";
                mark_queue := ["responsePart"];
                response_start_timestamp_twilio := Some 40 |};
           locals := initial_locals;
           sender_running := true |} in
    (r', OpenAI_audio_append p0 :: OpenAI_audio_append p1
         :: OpenAI_audio_append p2
         :: Twilio_media sid forwarded
         :: Twilio_mark sid "responsePart" :: outs).
Proof.
  intros Hsid Hpayload. cbn [app]. rewrite !run_media. unfold audioDeltaEvent.
  erewrite run_FromOpenAI; [|reflexivity|by apply send_to_twilio_delta].
  cbn [relay_after_handshake relay_on initial_session shared locals
       sender_running
       stream_sid latest_media_timestamp last_assistant_item mark_queue
       response_start_timestamp_twilio truthy String.eqb negb andb].
  rewrite bool_decide_eq_false_2 by done. cbn [negb].
  unfold send_mark. cbn [stream_sid]. rewrite Hsid.
  cbn [fst snd stream_sid latest_media_timestamp last_assistant_item
       mark_queue response_start_timestamp_twilio app].
  by destruct (run rest _).
Qed.

(** C1. On the session [st0] that a successful handshake produces, with the
    stream identifier of its [start] event (a string that is not empty):
    after media frames at 0, 20 and 40 and an audio delta of the new item
    ["item1"], whatever payload it carries that line 236 accepts, the
    response start timestamp is 40 and the last assistant item is ["item1"];
    after a further media frame at 100 and a speech start, the truncate
    command for ["item1"] with [audio_end_ms = 100 - 40 = 60] has gone to the
    model, the clear command for the current stream to the inbound side, and
    the mark queue is empty, the last assistant item and the response start
    timestamp unset. *)
Theorem interruption_scenario
    messages now s st0 p0 p1 p2 p3 payload forwarded :
  session_after_handshake (handle_media_stream messages now s).1 = Some st0 →
  truthy (stream_sid st0) = true →
  audio_payload_of payload = Some forwarded →
  let frames :=
    [media 0 p0; media 20 p1; media 40 p2; audioDeltaEvent "item1" payload] in
  shared (run frames (relay_on st0)).1
  = {| stream_sid := stream_sid st0;
       latest_media_timestamp := 40;
       last_assistant_item := Some "item1";
       mark_queue := ["responsePart"];
       response_start_timestamp_twilio := Some 40 |}
  ∧ run (frames ++ [media 100 p3; speechStarted]) (relay_on st0)
    = ({| shared :=
            {| stream_sid := stream_sid st0;
               latest_media_timestamp := 100;
               last_assistant_item := None;
               mark_queue := [];
               response_start_timestamp_twilio := None |};
          locals := initial_locals;
          sender_running := true |},
       [OpenAI_audio_append p0; OpenAI_audio_append p1; OpenAI_audio_append p2;
        Twilio_media (stream_sid st0) forwarded;
        Twilio_mark (stream_sid st0) "responsePart";
        OpenAI_audio_append p3;
        OpenAI_truncate "item1" 0 60; Twilio_clear (stream_sid st0)]).
Proof.
  intros Hst0 Hsid Hpayload frames. subst frames.
  destruct (handle_media_stream messages now s).1 as [sid| |];
    [|discriminate..].
  injection Hst0 as <-.
  change (relay_on (initial_session sid)) with (relay_after_handshake sid).
  cbn [initial_session stream_sid] in *. split.
  - rewrite <- (app_nil_r [_; _; _; _]).
    by rewrite (run_first_response sid p0 p1 p2 payload forwarded).
  - rewrite (run_first_response sid p0 p1 p2 payload forwarded) by done.
    rewrite run_media. unfold speechStarted.
    erewrite run_FromOpenAI; [|reflexivity|].
    2:{ eapply send_to_twilio_speech_started; cbn; try reflexivity.
        discriminate. }
    reflexivity.
Qed.

Lemma interruption_scenario_witness :
  let st0 := initial_session (Some "MZ1") in
  let frames :=
    [media 0 "AAAA"; media 20 "AAAA"; media 40 "AAAA";
     audioDeltaEvent "item1" "eHl6"] in
  shared (run frames (relay_on st0)).1
  = {| stream_sid := Some "MZ1";
       latest_media_timestamp := 40;
       last_assistant_item := Some "item1";
       mark_queue := ["responsePart"];
       response_start_timestamp_twilio := Some 40 |}
  ∧ run (frames ++ [media 100 "AAAA"; speechStarted]) (relay_on st0)
    = ({| shared :=
            {| stream_sid := Some "MZ1";
               latest_media_timestamp := 100;
               last_assistant_item := None;
               mark_queue := [];
               response_start_timestamp_twilio := None |};
          locals := initial_locals;
          sender_running := true |},
       [OpenAI_audio_append "AAAA"; OpenAI_audio_append "AAAA";
        OpenAI_audio_append "AAAA";
        Twilio_media (Some "MZ1") "eHl6";
        Twilio_mark (Some "MZ1") "responsePart";
        OpenAI_audio_append "AAAA";
        OpenAI_truncate "item1" 0 60; Twilio_clear (Some "MZ1")]).
Proof.
  apply (interruption_scenario
           [connected; Handshake.start (Some "tokA") (Some "MZ1")] 5000000
           (TokenStore.generate_websocket_token "tokA" 0 ∅).2
           (initial_session (Some "MZ1"))
           "AAAA" "AAAA" "AAAA" "AAAA" "eHl6" "eHl6").
  - vm_compute. reflexivity.
  - reflexivity.
  - vm_compute. reflexivity.
Defined.

(** What line 212-217 do to the shared state: the stream identifier and the
    latest media timestamp are assigned; the two other assignments bind names
    of the pump's own frame. *)
Lemma receive_from_twilio_start openai_open streamSid st loc :
  receive_from_twilio openai_open
    {| event := Some "start"; start_streamSid := Some streamSid;
       media_timestamp := None; media_payload := None |} st loc
  = Continue
      ({| stream_sid := Some streamSid;
          latest_media_timestamp := 0;
          last_assistant_item := last_assistant_item st;
          mark_queue := mark_queue st;
          response_start_timestamp_twilio := response_start_timestamp_twilio st |},
       {| local_response_start_timestamp_twilio := Some None;
          local_last_assistant_item := Some None |})
      [].
Proof. reflexivity. Qed.

(** C3. A [start] frame that arrives during a response: the stream
    identifier becomes the frame's and the latest media timestamp 0, but the
    shared response start timestamp is still 40 and the shared last
    assistant item still ["item1"]; only the names local to
    [receive_from_twilio] are bound to [None]. The speech start that follows
    is answered with a truncate command for ["item1"] at [0 - 40 = -40]. *)
Theorem start_frame_leaves_response_state :
  let frames :=
    [media 0 "AAAA"; media 20 "AAAA"; media 40 "AAAA";
     audioDelta "item1" ["x"; "y"; "z"]%char; Scenario.start "MZ2"] in
  (run frames (relay_after_handshake (Some "MZ1"))).1
  = {| shared :=
         {| stream_sid := Some "MZ2";
            latest_media_timestamp := 0;
            last_assistant_item := Some "item1";
            mark_queue := ["responsePart"];
            response_start_timestamp_twilio := Some 40 |};
       locals :=
         {| local_response_start_timestamp_twilio := Some None;
            local_last_assistant_item := Some None |};
       sender_running := true |}
  ∧ (run (frames ++ [speechStarted]) (relay_after_handshake (Some "MZ1"))).2
    = [OpenAI_audio_append "AAAA"; OpenAI_audio_append "AAAA";
       OpenAI_audio_append "AAAA";
       Twilio_media (Some "MZ1") "eHl6";
       Twilio_mark (Some "MZ1") "responsePart";
       OpenAI_truncate "item1" 0 (-40); Twilio_clear (Some "MZ2")].
Proof. split; vm_compute; reflexivity. Qed.

End scenario_facts.

(** * Further properties of the code *)

(** ** Sweeping and issuing *)

Section store_properties.
Import TokenStore Handshake Process.
Implicit Types (T : string) (s : gmap string Z) (now : Z).

Lemma lookup_cleanup_Some now s T exp :
  cleanup_expired_tokens now s !! T = Some exp ↔ s !! T = Some exp ∧ now <= exp.
Proof.
  rewrite lookup_cleanup_expired_tokens. destruct (s !! T) as [e|].
  - case_bool_decide; split.
    + discriminate.
    + intros [[= ->] Hle]. lia.
    + intros [= ->]. split; [done|lia].
    + by intros [[= ->] _].
  - split; [discriminate|]. by intros [? _].
Qed.

(** X1. After a sweep at [now] the store holds exactly the tokens it held
    before whose expiration is not earlier than [now], each with the
    expiration it had: nothing unexpired is lost, nothing is added or
    altered. *)
Theorem sweep_keeps_exactly_the_unexpired now s T exp :
  cleanup_expired_tokens now s !! T = Some exp ↔ s !! T = Some exp ∧ now <= exp.
Proof. apply lookup_cleanup_Some. Qed.

(** X2. Two sweeps in a row leave what one sweep at the later of the two
    clock readings leaves; in particular sweeping twice at the same reading
    is sweeping once. *)
Theorem sweep_after_sweep t1 t2 s :
  cleanup_expired_tokens t2 (cleanup_expired_tokens t1 s)
  = cleanup_expired_tokens (Z.max t1 t2) s.
Proof.
  apply map_eq. intros T. rewrite !lookup_cleanup_expired_tokens.
  destruct (s !! T) as [e|]; [|done].
  repeat case_bool_decide; try done; lia.
Qed.

(** When the token check accepts. *)
Lemma check_token_accepted token sid now s sid' :
  (check_token token sid now s).1 = Accepted sid'
  ↔ sid' = sid
    ∧ ∃ T exp, token = Some T ∧ T ≠ "" ∧ s !! T = Some exp ∧ now <= exp.
Proof.
  unfold check_token. destruct token as [T|];
    [|split; [done|by intros (_ & ? & ? & ? & _)]].
  destruct (decide (T = "")) as [->|HT].
  { split; [done|]. intros (_ & ? & ? & [= <-] & ? & _). done. }
  rewrite (truthy_Some T HT). destruct (s !! T) as [e|] eqn:Hs.
  - case_bool_decide; simpl; split.
    + done.
    + intros (_ & ? & ? & [= <-] & _ & Hl & Hle). rewrite Hs in Hl.
      injection Hl as <-. lia.
    + intros [= ->]. split; [done|]. exists T, e. split_and!; [done..|lia].
    + by intros [-> _].
  - split; [done|]. intros (_ & ? & ? & [= <-] & _ & Hl & _).
    rewrite Hs in Hl. done.
Qed.

(** X3. A sweep is not needed for validation to be right: a sweep whose
    clock reading is not later than that of the handshake changes nothing
    about whether the handshake is accepted, nor the stream identifier it is
    accepted with. *)
Theorem sweep_does_not_change_acceptance messages t now s sid :
  t <= now →
  (handle_media_stream messages now (cleanup_expired_tokens t s)).1 = Accepted sid
  ↔ (handle_media_stream messages now s).1 = Accepted sid.
Proof.
  intros Hle. induction messages as [|[data|] rest IH]; [done| |done].
  cbn [handle_media_stream]. case_bool_decide; [|by case_bool_decide].
  rewrite !check_token_accepted.
  split; intros [-> (T & exp & -> & HT & Hs & Hexp)];
    (split; [done|]); exists T, exp; split_and!; try done.
  - by apply lookup_cleanup_Some in Hs as [? _].
  - apply lookup_cleanup_Some. split; [done|lia].
Qed.

Lemma sweep_does_not_change_acceptance_witness :
  let s := (generate_websocket_token "tokA" 0 ∅).2 in
  let messages := [connected; Handshake.start (Some "tokA") (Some "MZ1")] in
  (handle_media_stream messages 5000000 (cleanup_expired_tokens 4000000 s)).1
  = Accepted (Some "MZ1")
  ↔ (handle_media_stream messages 5000000 s).1 = Accepted (Some "MZ1").
Proof.
  apply (sweep_does_not_change_acceptance
           [connected; Handshake.start (Some "tokA") (Some "MZ1")]
           4000000 5000000 (generate_websocket_token "tokA" 0 ∅).2
           (Some "MZ1")).
  lia.
Defined.

(** X4. The token handed out by an admitted call opens the relay: a
    handshake that presents it not later than 60 seconds after it was issued
    is accepted, with the stream identifier of its [start] event, whatever
    the store held before the call and whatever [connected] events precede. *)
Theorem admitted_call_token_is_accepted
    token now_cleanup now_generate s skipped sid now :
  token ≠ "" →
  now <= now_generate + SIXTY_SECONDS →
  Forall (fun m => has_event "connected" m = true) skipped →
  let s' := (handle_incoming_call true token now_cleanup now_generate s).2 in
  (handle_incoming_call true token now_cleanup now_generate s).1 = Some token
  ∧ handle_media_stream (skipped ++ [Handshake.start (Some token) sid]) now s'
    = (Accepted sid, delete token s').
Proof.
  intros HT Hle Hskipped s'. split; [done|].
  rewrite handle_media_stream_skip by done.
  change (handle_media_stream [Handshake.start (Some token) sid] now s')
    with (check_token (Some token) sid now s').
  apply (check_token_valid token (now_generate + SIXTY_SECONDS)); [done| |done].
  apply lookup_insert_eq.
Qed.

Lemma admitted_call_token_is_accepted_witness :
  let s' := (handle_incoming_call true "tokB" 70000000 70000001
               (generate_websocket_token "tokA" 0 ∅).2).2 in
  (handle_incoming_call true "tokB" 70000000 70000001
     (generate_websocket_token "tokA" 0 ∅).2).1 = Some "tokB"
  ∧ handle_media_stream
      ([connected] ++ [Handshake.start (Some "tokB") (Some "MZ1")]) 90000000 s'
    = (Accepted (Some "MZ1"), delete "tokB" s').
Proof.
  apply (admitted_call_token_is_accepted "tokB" 70000000 70000001
           (generate_websocket_token "tokA" 0 ∅).2 [connected] (Some "MZ1")
           90000000).
  - discriminate.
  - unfold SIXTY_SECONDS. lia.
  - repeat constructor.
Defined.

(** X5. What an admitted call leaves in the store: the token it issued, set
    to expire 60 seconds after its issuance, and of the older tokens exactly
    those that had not expired when the call swept the store, unchanged. A
    request whose signature is refused leaves the store as it was. *)
Theorem admitted_call_store token now_cleanup now_generate s T :
  (handle_incoming_call true token now_cleanup now_generate s).2 !! T
  = (if decide (token = T) then Some (now_generate + SIXTY_SECONDS)
     else match s !! T with
          | Some exp => if bool_decide (exp < now_cleanup) then None else Some exp
          | None => None
          end)
  ∧ handle_incoming_call false token now_cleanup now_generate s = (None, s).
Proof.
  split; [|done]. unfold handle_incoming_call, generate_websocket_token.
  cbn [snd]. rewrite lookup_insert. case_decide; [done|].
  apply lookup_cleanup_expired_tokens.
Qed.

(** X6. A connection cannot use up a token it does not present: whatever
    messages the handshake reads, a token that none of them carries is in the
    store afterwards exactly as before. *)
Theorem handshake_spares_other_tokens messages now s T :
  Forall (fun m => ∀ data, m = Text data → hs_token data ≠ Some T) messages →
  (handle_media_stream messages now s).2 !! T = s !! T.
Proof.
  induction 1 as [|m rest Hm _ IH]; [done|].
  destruct m as [data|]; [|done]. cbn [handle_media_stream].
  case_bool_decide; [|by case_bool_decide].
  destruct (check_token_store (hs_token data) (hs_streamSid data) now s)
    as [->|(t & Ht & ->)]; [done|].
  apply lookup_delete_ne. intros ->. by apply (Hm data).
Qed.

Lemma handshake_spares_other_tokens_witness :
  let s := (generate_websocket_token "tokB" 1
              (generate_websocket_token "tokA" 0 ∅).2).2 in
  (handle_media_stream [connected; Handshake.start (Some "tokA") (Some "MZ1")]
     5000000 s).2 !! "tokB"
  = s !! "tokB".
Proof.
  apply (handshake_spares_other_tokens
           [connected; Handshake.start (Some "tokA") (Some "MZ1")] 5000000
           (generate_websocket_token "tokB" 1
              (generate_websocket_token "tokA" 0 ∅).2).2 "tokB").
  repeat constructor; intros data [= <-]; discriminate.
Defined.

(** X7. A handshake never adds to the store and removes at most one token:
    every entry of the store afterwards was there before, and the store has
    lost at most one entry. *)
Theorem handshake_removes_at_most_one messages now s :
  (handle_media_stream messages now s).2 ⊆ s
  ∧ (size s <= S (size (handle_media_stream messages now s).2))%nat.
Proof.
  destruct (handle_media_stream_store messages now s)
    as [->|(token & sid & ->)]; [split; [done|lia]|].
  destruct (check_token_store token sid now s) as [->|(t & _ & ->)];
    [split; [done|lia]|].
  split; [apply delete_subseteq|].
  destruct (s !! t) as [e|] eqn:Hs.
  - rewrite <- (insert_delete_id s t e Hs) at 1.
    rewrite map_size_insert_None by apply lookup_delete_eq. lia.
  - rewrite delete_id by done. lia.
Qed.

(** X8. The handshake reads no further than the first message that is not a
    [connected] event: it ends there, accepted or closed, and what follows is
    left unread. *)
Theorem handshake_stops_at_first_decisive_message skipped m rest now s :
  Forall (fun m => has_event "connected" m = true) skipped →
  has_event "connected" m = false →
  handle_media_stream (skipped ++ m :: rest) now s
  = handle_media_stream (skipped ++ [m]) now s
  ∧ (handle_media_stream (skipped ++ m :: rest) now s).1 ≠ Waiting.
Proof.
  intros Hskipped Hm. rewrite !handle_media_stream_skip by done.
  destruct m as [data|]; [|done]. cbn [handle_media_stream].
  cbn [has_event] in Hm. rewrite Hm. clear Hm.
  case_bool_decide; [|by split]. split; [done|].
  unfold check_token. repeat case_match; done.
Qed.

Lemma handshake_stops_at_first_decisive_message_witness :
  let s := (generate_websocket_token "tokA" 0 ∅).2 in
  let m := Handshake.start (Some "tokA") (Some "MZ1") in
  handle_media_stream ([connected] ++ m :: [connected; Raised]) 5000000 s
  = handle_media_stream ([connected] ++ [m]) 5000000 s
  ∧ (handle_media_stream ([connected] ++ m :: [connected; Raised]) 5000000 s).1
    ≠ Waiting.
Proof.
  apply (handshake_stops_at_first_decisive_message [connected]
           (Handshake.start (Some "tokA") (Some "MZ1")) [connected; Raised]
           5000000 (generate_websocket_token "tokA" 0 ∅).2).
  - repeat constructor.
  - reflexivity.
Defined.

(** X9. No relay without a valid token: if the handshake is accepted, then
    one of its messages was a [start] event that carried the accepted stream
    identifier and a token that is not empty, was in the store and had not
    expired at the time of the check; that token is gone from the store
    afterwards and nothing else has changed. *)
Theorem accepted_handshake_consumed_a_valid_token messages now s sid s' :
  handle_media_stream messages now s = (Accepted sid, s') →
  ∃ T exp,
    Handshake.start (Some T) sid ∈ messages
    ∧ T ≠ "" ∧ s !! T = Some exp ∧ now <= exp
    ∧ s' = delete T s.
Proof.
  induction messages as [|[data|] rest IH]; [done| |done].
  cbn [handle_media_stream]. case_bool_decide as Hstart.
  - intros Hchk.
    assert ((check_token (hs_token data) (hs_streamSid data) now s).1
            = Accepted sid) as Hacc by by rewrite Hchk.
    apply check_token_accepted in Hacc as (-> & T & exp & HT & Hne & Hs & Hle).
    exists T, exp. split_and!; try done.
    + destruct data as [e t i]. simpl in *. subst. left.
    + rewrite HT, (check_token_valid T exp _ now s Hne Hs Hle) in Hchk.
      by injection Hchk.
  - case_bool_decide; [|done]. intros Hrest.
    destruct (IH Hrest) as (T & exp & Hin & ?). exists T, exp.
    split; [by right|done].
Qed.

Lemma accepted_handshake_consumed_a_valid_token_witness :
  let s := (generate_websocket_token "tokA" 0 ∅).2 in
  ∃ T exp,
    Handshake.start (Some T) (Some "MZ1")
    ∈ [connected; Handshake.start (Some "tokA") (Some "MZ1")]
    ∧ T ≠ "" ∧ s !! T = Some exp ∧ 5000000 <= exp
    ∧ delete "tokA" s = delete T s.
Proof.
  apply (accepted_handshake_consumed_a_valid_token
           [connected; Handshake.start (Some "tokA") (Some "MZ1")] 5000000
           (generate_websocket_token "tokA" 0 ∅).2 (Some "MZ1")
           (delete "tokA" (generate_websocket_token "tokA" 0 ∅).2)).
  vm_compute. reflexivity.
Defined.

End store_properties.

(** ** The two pumps *)

Section pump_properties.
Import Base64 Relay Scenario Invariant.
Implicit Types (st : session) (r : relay) (response : openai_response).

(** X10. Audio from the caller reaches the model complete and in order: of
    a series of media frames, exactly those received while the connection to
    the model is open are forwarded, each payload as it came, in the order of
    arrival; the latest media timestamp is that of the last such frame, as
    sent, and nothing else of the session changes. *)
Theorem media_frames_are_forwarded_in_order
    (frames : list (bool * Z * string)) r :
  let received_open := filter (fun f => f.1.1 = true) frames in
  run ((fun f => FromTwilio f.1.1
                   {| event := Some "media"; start_streamSid := None;
                      media_timestamp := Some f.1.2;
                      media_payload := Some f.2 |}) <$> frames) r
  = ({| shared :=
          {| stream_sid := stream_sid (shared r);
             latest_media_timestamp :=
               default (latest_media_timestamp (shared r))
                 (last ((fun f => f.1.2) <$> received_open));
             last_assistant_item := last_assistant_item (shared r);
             mark_queue := mark_queue (shared r);
             response_start_timestamp_twilio :=
               response_start_timestamp_twilio (shared r) |};
        locals := locals r;
        sender_running := sender_running r |},
     (fun f => OpenAI_audio_append f.2) <$> received_open).
Proof.
  revert r. induction frames as [|[[open ts] payload] frames IH]; intros r.
  - by destruct r as [[] ? ?].
  - cbn [fmap list_fmap run fst snd]. destruct open.
    + cbn [receive_from_twilio event media_timestamp media_payload
           String.eqb Ascii.eqb Bool.eqb andb].
      rewrite IH. cbn [shared locals sender_running stream_sid
                       latest_media_timestamp last_assistant_item mark_queue
                       response_start_timestamp_twilio].
      rewrite filter_cons_True by done. cbn [fmap list_fmap fst snd app].
      f_equal. f_equal. f_equal.
      rewrite last_cons. by destruct (last _).
    + cbn [receive_from_twilio event media_timestamp media_payload
           String.eqb Ascii.eqb Bool.eqb andb].
      rewrite IH. rewrite filter_cons_False by done. by destruct r as [[] ? ?].
Qed.

(** X11. Marks are acknowledged oldest first and never beyond what is
    queued: [n] mark frames drop the [n] oldest entries of the mark queue, or
    all of them when there are fewer, send nothing and change nothing else. *)
Theorem marks_are_acknowledged_in_order n r :
  run (repeat mark n) r
  = ({| shared :=
          {| stream_sid := stream_sid (shared r);
             latest_media_timestamp := latest_media_timestamp (shared r);
             last_assistant_item := last_assistant_item (shared r);
             mark_queue := drop n (mark_queue (shared r));
             response_start_timestamp_twilio :=
               response_start_timestamp_twilio (shared r) |};
        locals := locals r;
        sender_running := sender_running r |}, []).
Proof.
  revert r. induction n as [|n IH]; intros r.
  - by destruct r as [[] ? ?].
  - cbn [repeat]. unfold mark at 1. cbn [run]. 
    cbn [receive_from_twilio event String.eqb Ascii.eqb Bool.eqb andb].
    fold mark. rewrite IH.
    cbn [shared locals sender_running stream_sid latest_media_timestamp
         last_assistant_item mark_queue response_start_timestamp_twilio app].
    destruct (mark_queue (shared r)); [|done]. cbn [tail]. by rewrite !drop_nil.
Qed.

Lemma send_mark_consistent st :
  response_state_consistent st → response_state_consistent (send_mark st).1.
Proof.
  intros (Hiff & Hitem & Hmarks). unfold send_mark.
  destruct (truthy (stream_sid st)); [|done].
  split_and!; [done..|]. cbn [fst mark_queue].
  apply Forall_app. split; [done|]. by constructor.
Qed.

Lemma handle_speech_started_event_consistent st :
  response_state_consistent st →
  response_state_consistent (handle_speech_started_event st).1.
Proof.
  intros Hst. unfold handle_speech_started_event.
  destruct (mark_queue st); [exact Hst|].
  destruct (response_start_timestamp_twilio st); [|exact Hst].
  split_and!; [done|done|constructor].
Qed.

Lemma receive_from_twilio_consistent openai_open data st loc :
  response_state_consistent st →
  response_state_consistent
    (state_of (receive_from_twilio openai_open data st loc)).1.
Proof.
  intros (Hiff & Hitem & Hmarks). unfold receive_from_twilio.
  repeat case_match; try done.
  split_and!; [done..|]. cbn [state_of fst mark_queue].
  destruct (mark_queue st); [done|]. by inversion Hmarks.
Qed.

Lemma send_to_twilio_consistent response st :
  response_state_consistent st →
  response_state_consistent (state_of (send_to_twilio response st)).
Proof.
  intros Hst. unfold send_to_twilio. destruct (type response); [|done].
  assert (response_state_consistent
            (state_of (forward_audio_delta response st))) as Hfwd.
  { unfold forward_audio_delta. destruct (delta response); [|done].
    case_bool_decide; [|done]. destruct (audio_payload_of _); [|done].
    destruct (send_mark _) as [st2 marks] eqn:Hmark.
    change st2 with (st2, marks).1. rewrite <- Hmark.
    apply send_mark_consistent.
    destruct (item_id response) as [item|]; [|done].
    destruct (truthy (Some item)) eqn:Hitem; [|done].
    destruct (negb _); [|done].
    destruct Hst as (_ & _ & Hmarks).
    split_and!; [done| |done].
    cbn [last_assistant_item]. intros ? [= <-].
    cbn [truthy] in Hitem. by apply negb_true_iff, String.eqb_neq in Hitem. }
  destruct (forward_audio_delta response st) as [st1 out1|st1 out1]; [|done].
  cbn [state_of] in Hfwd. unfold interrupt_on_speech_started.
  case_bool_decide; [|done]. destruct (truthy _); [|done].
  pose proof (handle_speech_started_event_consistent st1 Hfwd) as Hint.
  by destruct (handle_speech_started_event st1).
Qed.

Lemma run_consistent events r :
  response_state_consistent (shared r) →
  response_state_consistent (shared (run events r).1).
Proof.
  revert r. induction events as [|[openai_open data|response] events IH];
    intros r Hr; [done| |].
  - cbn [run].
    pose proof (receive_from_twilio_consistent openai_open data
                  (shared r) (locals r) Hr) as Hstep.
    destruct (receive_from_twilio _ _ _ _) as [[st loc] out|[st loc] out];
      cbn [state_of fst] in Hstep; [|done].
    specialize (IH {| shared := st; locals := loc;
                      sender_running := sender_running r |} Hstep).
    by destruct (run events _).
  - cbn [run]. destruct (sender_running r); [|by apply IH].
    pose proof (send_to_twilio_consistent response (shared r) Hr) as Hstep.
    destruct (send_to_twilio _ _) as [st out|st out]; cbn [state_of] in Hstep.
    + specialize (IH {| shared := st; locals := locals r;
                        sender_running := true |} Hstep).
      by destruct (run events _).
    + specialize (IH {| shared := st; locals := locals r;
                        sender_running := false |} Hstep).
      by destruct (run events _).
Qed.

(** X12. Throughout a connection, whatever the two sides send and in
    whatever order: the last assistant item and the response start timestamp
    are either both set or both unset, an item that is set is never the
    empty string, and the mark queue holds only the mark name
    ["responsePart"]. *)
Theorem session_stays_consistent events initial_stream_sid :
  response_state_consistent
    (shared (run events (relay_after_handshake initial_stream_sid)).1).
Proof.
  apply run_consistent. split_and!; [done|done|constructor].
Qed.

(** What lines 235-253 send: media frames and marks for the current
    stream, and they leave the stream identifier and the clock alone. *)
Lemma forward_audio_delta_frame response st :
  stream_sid (state_of (forward_audio_delta response st)) = stream_sid st
  ∧ latest_media_timestamp (state_of (forward_audio_delta response st))
    = latest_media_timestamp st
  ∧ Forall (fun o => (∃ payload, o = Twilio_media (stream_sid st) payload)
                     ∨ o = Twilio_mark (stream_sid st) "responsePart")
      (output_of (forward_audio_delta response st)).
Proof.
  unfold forward_audio_delta. destruct (delta response); [|by split_and!].
  case_bool_decide; [|by split_and!].
  destruct (audio_payload_of _); [|by split_and!].
  destruct (truthy (item_id response) && negb (bool_decide _));
    unfold send_mark; cbn [stream_sid]; destruct (truthy (stream_sid st));
    cbn [state_of output_of stream_sid latest_media_timestamp];
    (split_and!; [done..|]);
    repeat first [apply Forall_nil_2 | apply Forall_cons_2; [eauto|]].
Qed.

(** X13. A truncate command goes to the model only as the answer to a
    speech start, for the item that was the last assistant item, with content
    index 0 and the offset [latest_media_timestamp - response start], while
    marks are queued; and it is always followed at once by the clear command
    for the current stream. *)
Theorem truncate_only_on_interruption
    response st item content_index audio_end_ms :
  OpenAI_truncate item content_index audio_end_ms
  ∈ output_of (send_to_twilio response st) →
  type response = Some "input_audio_buffer.speech_started"
  ∧ last_assistant_item st = Some item
  ∧ mark_queue st ≠ []
  ∧ (∃ start, response_start_timestamp_twilio st = Some start
              ∧ audio_end_ms = latest_media_timestamp st - start)
  ∧ output_of (send_to_twilio response st)
    = [OpenAI_truncate item 0 audio_end_ms; Twilio_clear (stream_sid st)].
Proof.
  destruct (decide (type response = Some "input_audio_buffer.speech_started"))
    as [Hty|Hty].
  - unfold send_to_twilio. rewrite Hty.
    rewrite forward_audio_delta_other by (by rewrite Hty).
    unfold interrupt_on_speech_started, handle_speech_started_event.
    rewrite Hty, bool_decide_eq_true_2 by done.
    destruct (last_assistant_item st) as [i|] eqn:Hi;
      [|by intros ?%elem_of_nil].
    destruct (truthy (Some i)); [|by intros ?%elem_of_nil].
    destruct (mark_queue st) as [|m ms]; [by intros ?%elem_of_nil|].
    destruct (response_start_timestamp_twilio st) as [start|];
      [|by intros ?%elem_of_nil].
    cbn [output_of app]. intros Hin.
    apply elem_of_cons in Hin as [[= -> -> ->]|Hin].
    + split_and!; try done. by exists start.
    + apply list_elem_of_singleton in Hin. discriminate.
  - unfold send_to_twilio.
    destruct (type response) eqn:Hty'; [|by intros ?%elem_of_nil].
    pose proof (forward_audio_delta_frame response st) as (_ & _ & Hout).
    destruct (forward_audio_delta response st) as [st1 out1|st1 out1];
      cbn [output_of] in *.
    + rewrite interrupt_on_speech_started_other by (by rewrite Hty').
      cbn [output_of]. rewrite app_nil_r. intros Hin.
      rewrite Forall_forall in Hout.
      by destruct (Hout _ Hin) as [[? ?]|?].
    + intros Hin. rewrite Forall_forall in Hout.
      by destruct (Hout _ Hin) as [[? ?]|?].
Qed.

Lemma truncate_only_on_interruption_witness :
  let response := {| type := Some "input_audio_buffer.speech_started";
                     delta := None; item_id := None |} in
  let st := {| stream_sid := Some "MZ1";
               latest_media_timestamp := 100;
               last_assistant_item := Some "item1";
               mark_queue := ["responsePart"];
               response_start_timestamp_twilio := Some 40 |} in
  type response = Some "input_audio_buffer.speech_started"
  ∧ last_assistant_item st = Some "item1"
  ∧ mark_queue st ≠ []
  ∧ (∃ start, response_start_timestamp_twilio st = Some start
              ∧ 60 = latest_media_timestamp st - start)
  ∧ output_of (send_to_twilio response st)
    = [OpenAI_truncate "item1" 0 60; Twilio_clear (stream_sid st)].
Proof.
  apply (truncate_only_on_interruption
           {| type := Some "input_audio_buffer.speech_started";
              delta := None; item_id := None |}
           {| stream_sid := Some "MZ1";
              latest_media_timestamp := 100;
              last_assistant_item := Some "item1";
              mark_queue := ["responsePart"];
              response_start_timestamp_twilio := Some 40 |}
           "item1" 0 60).
  vm_compute. left.
Defined.

(** X14. Interrupting is done once: whatever the session, after one speech
    start has been handled a second one right after it sends nothing and
    changes nothing. *)
Theorem second_speech_started_is_noop response st :
  type response = Some "input_audio_buffer.speech_started" →
  let st1 := state_of (send_to_twilio response st) in
  send_to_twilio response st1 = Continue st1 [].
Proof.
  intros Hty st1. subst st1.
  assert (truthy (last_assistant_item st) = false
          ∨ mark_queue st = []
          ∨ response_start_timestamp_twilio st = None
          ∨ ∃ item m ms start,
              last_assistant_item st = Some item ∧ item ≠ ""
              ∧ mark_queue st = m :: ms
              ∧ response_start_timestamp_twilio st = Some start)
    as [Hg|[Hg|[Hg|(item & m & ms & start & Hitem & Hne & Hmarks & Hstart)]]].
  { destruct (last_assistant_item st) as [item|]; [|by left].
    destruct (decide (item = "")) as [->|Hne]; [by left|].
    destruct (mark_queue st) as [|m ms]; [by right; left|].
    destruct (response_start_timestamp_twilio st) as [start|];
      [|by right; right; left].
    right. right. right. by exists item, m, ms, start. }
  - rewrite (speech_started_guarded response st) by auto.
    apply speech_started_guarded; auto.
  - rewrite (speech_started_guarded response st) by auto.
    apply speech_started_guarded; auto.
  - rewrite (speech_started_guarded response st) by auto.
    apply speech_started_guarded; auto.
  - rewrite (send_to_twilio_speech_started response st item m ms start) by done.
    apply speech_started_guarded; [done|]. by left.
Qed.

Lemma second_speech_started_is_noop_witness :
  let response := {| type := Some "input_audio_buffer.speech_started";
                     delta := None; item_id := None |} in
  let st1 :=
    state_of
      (send_to_twilio response
         {| stream_sid := Some "MZ1";
            latest_media_timestamp := 100;
            last_assistant_item := Some "item1";
            mark_queue := ["responsePart"];
            response_start_timestamp_twilio := Some 40 |}) in
  send_to_twilio response st1 = Continue st1 [].
Proof.
  apply (second_speech_started_is_noop
           {| type := Some "input_audio_buffer.speech_started";
              delta := None; item_id := None |}
           {| stream_sid := Some "MZ1";
              latest_media_timestamp := 100;
              last_assistant_item := Some "item1";
              mark_queue := ["responsePart"];
              response_start_timestamp_twilio := Some 40 |}).
  reflexivity.
Defined.

(** Further audio deltas of the item that is already the last assistant
    item: each one is forwarded and marked, and only the mark queue grows.
    A delta is given as its payload and what line 236 makes of it. *)
Lemma run_audio_deltas_same_item item (deltas : list (string * string)) r :
  item ≠ "" →
  truthy (stream_sid (shared r)) = true →
  sender_running r = true →
  last_assistant_item (shared r) = Some item →
  Forall (fun d => audio_payload_of d.1 = Some d.2) deltas →
  run ((fun d => audioDeltaEvent item d.1) <$> deltas) r
  = ({| shared :=
          {| stream_sid := stream_sid (shared r);
             latest_media_timestamp := latest_media_timestamp (shared r);
             last_assistant_item := Some item;
             mark_queue :=
               (mark_queue (shared r)
                ++ replicate (length deltas) "responsePart")%list;
             response_start_timestamp_twilio :=
               response_start_timestamp_twilio (shared r) |};
        locals := locals r;
        sender_running := true |},
     deltas ≫= fun d =>
       [Twilio_media (stream_sid (shared r)) d.2;
        Twilio_mark (stream_sid (shared r)) "responsePart"]).
Proof.
  intros Hne. revert r.
  induction deltas as [|[payload forwarded] deltas IH];
    intros r Hsid Hrun Hitem Hdeltas.
  - destruct r as [[] ? ?]. cbn in *. subst. by rewrite app_nil_r.
  - apply Forall_cons in Hdeltas as [Hpayload Hdeltas]. cbn [fst snd] in Hpayload.
    cbn [fmap list_fmap fst]. unfold audioDeltaEvent at 1.
    erewrite run_FromOpenAI; [|done|by apply send_to_twilio_delta].
    cbn zeta. rewrite Hitem, bool_decide_eq_true_2 by done.
    rewrite andb_false_r. unfold send_mark. rewrite Hsid.
    cbn [fst snd]. rewrite IH by done.
    cbn [shared locals sender_running stream_sid latest_media_timestamp
         last_assistant_item mark_queue response_start_timestamp_twilio
         length replicate mbind list_bind app fst snd].
    by rewrite <- app_assoc.
Qed.

(** X15. A response that arrives in several audio deltas of one item, each
    with a payload that line 236 accepts, is timed from its first delta: the
    first delta sets the response start timestamp to the latest media
    timestamp (unless the item was the last assistant item already), the
    further ones leave it alone; every delta is forwarded as a media frame,
    carrying what line 236 makes of its payload, followed by a mark, in
    order, and queues one mark. *)
Theorem audio_deltas_of_one_item
    item (delta : string * string) (deltas : list (string * string)) r :
  item ≠ "" →
  truthy (stream_sid (shared r)) = true →
  sender_running r = true →
  Forall (fun d => audio_payload_of d.1 = Some d.2) (delta :: deltas) →
  run ((fun d => audioDeltaEvent item d.1) <$> delta :: deltas) r
  = ({| shared :=
          {| stream_sid := stream_sid (shared r);
             latest_media_timestamp := latest_media_timestamp (shared r);
             last_assistant_item := Some item;
             mark_queue :=
               (mark_queue (shared r)
                ++ replicate (S (length deltas)) "responsePart")%list;
             response_start_timestamp_twilio :=
               if bool_decide (last_assistant_item (shared r) = Some item)
               then response_start_timestamp_twilio (shared r)
               else Some (latest_media_timestamp (shared r)) |};
        locals := locals r;
        sender_running := true |},
     (delta :: deltas) ≫= fun d =>
       [Twilio_media (stream_sid (shared r)) d.2;
        Twilio_mark (stream_sid (shared r)) "responsePart"]).
Proof.
  intros Hne Hsid Hrun [Hpayload Hdeltas]%Forall_cons.
  destruct delta as [payload forwarded]. cbn [fst snd] in Hpayload.
  cbn [fmap list_fmap fst]. unfold audioDeltaEvent at 1.
  erewrite run_FromOpenAI; [|done|by apply send_to_twilio_delta].
  cbn zeta. rewrite (truthy_Some item Hne). cbn [andb].
  rewrite (bool_decide_ext (Some item = last_assistant_item (shared r))
             (last_assistant_item (shared r) = Some item)) by done.
  case_bool_decide as Hsame; cbn [negb]; unfold send_mark;
    cbn [stream_sid]; rewrite Hsid; cbn [fst snd];
    rewrite run_audio_deltas_same_item by done;
    cbn [shared locals sender_running stream_sid latest_media_timestamp
         last_assistant_item mark_queue response_start_timestamp_twilio
         length replicate mbind list_bind app fst snd];
    by rewrite <- app_assoc.
Qed.

Lemma audio_deltas_of_one_item_witness :
  let r := relay_after_handshake (Some "MZ1") in
  run ((fun d => audioDeltaEvent "item1" d.1)
         <$> ("QR==", "QQ==") :: [("eHl6", "eHl6")]) r
  = ({| shared :=
          {| stream_sid := Some "MZ1";
             latest_media_timestamp := 0;
             last_assistant_item := Some "item1";
             mark_queue := ["responsePart"; "responsePart"];
             response_start_timestamp_twilio := Some 0 |};
        locals := initial_locals;
        sender_running := true |},
     [Twilio_media (Some "MZ1") "QQ==";
      Twilio_mark (Some "MZ1") "responsePart";
      Twilio_media (Some "MZ1") "eHl6";
      Twilio_mark (Some "MZ1") "responsePart"]).
Proof.
  apply (audio_deltas_of_one_item "item1" ("QR==", "QQ==") [("eHl6", "eHl6")]
           (relay_after_handshake (Some "MZ1"))).
  - discriminate.
  - reflexivity.
  - reflexivity.
  - repeat constructor; vm_compute; reflexivity.
Defined.

(** X16. An audio delta whose payload does not decode as base64 ends the
    model-to-inbound pump: the exception leaves the loop before anything is
    sent, and the session is as it was. *)
Theorem undecodable_delta_ends_the_pump response st payload :
  type response = Some "response.output_audio.delta" →
  delta response = Some payload →
  b64decode payload = None →
  send_to_twilio response st = Raise st [].
Proof.
  intros Hty Hdelta Hdecode. unfold send_to_twilio, forward_audio_delta.
  rewrite Hty, Hdelta, bool_decide_eq_true_2 by done.
  unfold audio_payload_of. by rewrite Hdecode.
Qed.

Lemma undecodable_delta_ends_the_pump_witness :
  send_to_twilio
    {| type := Some "response.output_audio.delta";
       delta := Some "QQ"; item_id := Some "item1" |}
    (initial_session (Some "MZ1"))
  = Raise (initial_session (Some "MZ1")) [].
Proof.
  apply (undecodable_delta_ends_the_pump
           {| type := Some "response.output_audio.delta";
              delta := Some "QQ"; item_id := Some "item1" |}
           (initial_session (Some "MZ1")) "QQ").
  - reflexivity.
  - reflexivity.
  - vm_compute. reflexivity.
Defined.

(** What the inbound-to-model pump touches: it sends audio to the model
    only, and leaves the last assistant item and the response start timestamp
    of the shared state as they are. When it raises it has sent nothing. *)
Lemma receive_from_twilio_frame openai_open data st loc :
  let result := receive_from_twilio openai_open data st loc in
  last_assistant_item (state_of result).1 = last_assistant_item st
  ∧ response_start_timestamp_twilio (state_of result).1
    = response_start_timestamp_twilio st
  ∧ Forall (fun o => ∃ payload, o = OpenAI_audio_append payload)
      (output_of result)
  ∧ (∀ (st' : session * receive_locals) out, result = Raise st' out → out = []).
Proof.
  unfold receive_from_twilio. repeat case_match;
    cbn [state_of output_of fst last_assistant_item
         response_start_timestamp_twilio];
    (split_and!; [done|done| |congruence]);
    repeat first [apply Forall_nil_2 | apply Forall_cons_2; [eauto|]].
Qed.

(** What the model-to-inbound pump touches: it never changes the stream
    identifier or the latest media timestamp, and never sends audio to the
    model. *)
Lemma send_to_twilio_frame response st :
  stream_sid (state_of (send_to_twilio response st)) = stream_sid st
  ∧ latest_media_timestamp (state_of (send_to_twilio response st))
    = latest_media_timestamp st
  ∧ Forall (fun o => ∀ payload, o ≠ OpenAI_audio_append payload)
      (output_of (send_to_twilio response st)).
Proof.
  unfold send_to_twilio. destruct (type response); [|by split_and!].
  pose proof (forward_audio_delta_frame response st) as (Hsid & Hts & Hout).
  destruct (forward_audio_delta response st) as [st1 out1|st1 out1];
    cbn [state_of output_of] in *.
  - assert (Forall (fun o => ∀ payload, o ≠ OpenAI_audio_append payload) out1)
      as Hout1.
    { eapply Forall_impl; [exact Hout|]. by intros o [[? ->]| ->]. }
    unfold interrupt_on_speech_started, handle_speech_started_event.
    repeat case_match; simplify_eq;
      cbn [state_of output_of stream_sid latest_media_timestamp];
      (split_and!; [done..|]); rewrite ?app_nil_r; try done;
      apply Forall_app; (split; [done|]);
      repeat first [apply Forall_nil_2 | apply Forall_cons_2; [done|]].
  - split_and!; [done..|].
    eapply Forall_impl; [exact Hout|]. by intros o [[? ->]| ->].
Qed.

(** X17. The two pumps write apart: handling a message from the telephony
    side never changes the last assistant item or the response start
    timestamp and sends nothing but audio to the model; handling an event
    from the model never changes the stream identifier or the latest media
    timestamp and never sends audio to the model. *)
Theorem pumps_write_apart openai_open data response st loc :
  (last_assistant_item (state_of (receive_from_twilio openai_open data st loc)).1
   = last_assistant_item st
   ∧ response_start_timestamp_twilio
       (state_of (receive_from_twilio openai_open data st loc)).1
     = response_start_timestamp_twilio st
   ∧ Forall (fun o => ∃ payload, o = OpenAI_audio_append payload)
       (output_of (receive_from_twilio openai_open data st loc)))
  ∧ (stream_sid (state_of (send_to_twilio response st)) = stream_sid st
     ∧ latest_media_timestamp (state_of (send_to_twilio response st))
       = latest_media_timestamp st
     ∧ Forall (fun o => ∀ payload, o ≠ OpenAI_audio_append payload)
         (output_of (send_to_twilio response st))).
Proof.
  split; [|apply send_to_twilio_frame].
  pose proof (receive_from_twilio_frame openai_open data st loc) as H.
  cbn zeta in H. tauto.
Qed.

(** X18. Once the model-to-inbound pump has ended, the relay is one-way:
    whatever arrives from either side, nothing is sent to the telephony side
    any more (no media, no mark, no clear), no truncate command is sent, the
    last assistant item and the response start timestamp stay as they were,
    and the pump does not start again; audio from the caller is still
    forwarded to the model. *)
Theorem after_the_sender_has_ended events r :
  sender_running r = false →
  sender_running (run events r).1 = false
  ∧ last_assistant_item (shared (run events r).1)
    = last_assistant_item (shared r)
  ∧ response_start_timestamp_twilio (shared (run events r).1)
    = response_start_timestamp_twilio (shared r)
  ∧ Forall (fun o => ∃ payload, o = OpenAI_audio_append payload)
      (run events r).2.
Proof.
  revert r. induction events as [|[openai_open data|response] events IH];
    intros r Hr.
  - by split_and!.
  - cbn [run].
    pose proof (receive_from_twilio_frame openai_open data (shared r) (locals r))
      as (Hitem & Hstart & Hout & Hraise).
    destruct (receive_from_twilio _ _ _ _) as [[st loc] out|[st loc] out];
      cbn [state_of output_of fst] in *.
    + destruct (IH {| shared := st; locals := loc;
                      sender_running := sender_running r |} Hr)
        as (H1 & H2 & H3 & H4).
      destruct (run events _) as [r' outs]. cbn [fst snd shared] in *.
      split_and!; [done|congruence|congruence|by apply Forall_app].
    + by split_and!.
  - cbn [run]. rewrite Hr. by apply IH.
Qed.

Lemma after_the_sender_has_ended_witness :
  let r := {| shared := initial_session (Some "MZ1");
              locals := initial_locals; sender_running := false |} in
  let events := [media 20 "AAAA"; audioDelta "item1" ["x"%char]; speechStarted] in
  sender_running (run events r).1 = false
  ∧ last_assistant_item (shared (run events r).1)
    = last_assistant_item (shared r)
  ∧ response_start_timestamp_twilio (shared (run events r).1)
    = response_start_timestamp_twilio (shared r)
  ∧ Forall (fun o => ∃ payload, o = OpenAI_audio_append payload)
      (run events r).2.
Proof.
  apply (after_the_sender_has_ended
           [media 20 "AAAA"; audioDelta "item1" ["x"%char]; speechStarted]
           {| shared := initial_session (Some "MZ1");
              locals := initial_locals; sender_running := false |}).
  reflexivity.
Defined.

(** X19. The relay never alters the audio. Whatever decodable payload an
    audio delta carries, the payload sent downstream decodes to the same
    bytes; and it is in the encoder's form, so that passing it through the
    relay's re-encoding once more would leave it unchanged. *)
Theorem forwarded_payload_has_the_same_audio payload forwarded :
  audio_payload_of payload = Some forwarded →
  b64decode forwarded = b64decode payload
  ∧ audio_payload_of forwarded = Some forwarded.
Proof.
  unfold audio_payload_of at 1.
  destruct (b64decode payload) as [bs|]; [|discriminate].
  intros [= <-]. split; [apply b64decode_b64encode|].
  apply audio_payload_of_b64encode.
Qed.

Lemma forwarded_payload_has_the_same_audio_witness :
  b64decode "QQ==" = b64decode "QR=="
  ∧ audio_payload_of "QQ==" = Some "QQ==".
Proof.
  apply (forwarded_payload_has_the_same_audio "QR==" "QQ==").
  vm_compute. reflexivity.
Defined.

(** X20. Events of the model other than a speech start and an audio delta
    that carries a [delta] are passed over: nothing is sent, the session is
    unchanged, the pump goes on. *)
Theorem other_model_events_are_ignored response st event_type :
  type response = Some event_type →
  event_type ≠ "input_audio_buffer.speech_started" →
  event_type ≠ "response.output_audio.delta" ∨ delta response = None →
  send_to_twilio response st = Continue st [].
Proof.
  intros Hty Hspeech Hdelta. unfold send_to_twilio. rewrite Hty.
  assert (forward_audio_delta response st = Continue st []) as ->.
  { destruct Hdelta as [Hne|Hnone].
    - apply forward_audio_delta_other. rewrite Hty. congruence.
    - unfold forward_audio_delta. by rewrite Hnone. }
  rewrite interrupt_on_speech_started_other; [done|].
  rewrite Hty. congruence.
Qed.

Lemma other_model_events_are_ignored_witness :
  send_to_twilio
    {| type := Some "response.done"; delta := None; item_id := Some "item1" |}
    (initial_session (Some "MZ1"))
  = Continue (initial_session (Some "MZ1")) [].
Proof.
  apply (other_model_events_are_ignored
           {| type := Some "response.done"; delta := None;
              item_id := Some "item1" |}
           (initial_session (Some "MZ1")) "response.done").
  - reflexivity.
  - discriminate.
  - left. discriminate.
Defined.

(** X21. Of the messages of the telephony side only [media], [start] and
    [mark] have an effect: any other event, [stop] included, and a [media]
    frame received while the connection to the model is not open, is passed
    over without a trace. *)
Theorem other_inbound_events_are_ignored openai_open data st loc name :
  event data = Some name →
  name ≠ "start" → name ≠ "mark" →
  name ≠ "media" ∨ openai_open = false →
  receive_from_twilio openai_open data st loc = Continue (st, loc) [].
Proof.
  intros Hev Hstart Hmark Hmedia. unfold receive_from_twilio. rewrite Hev.
  apply String.eqb_neq in Hstart, Hmark. rewrite Hstart, Hmark.
  destruct Hmedia as [Hne| ->].
  - apply String.eqb_neq in Hne. by rewrite Hne.
  - by rewrite andb_false_r.
Qed.

Lemma other_inbound_events_are_ignored_witness :
  receive_from_twilio true
    {| event := Some "stop"; start_streamSid := None;
       media_timestamp := None; media_payload := None |}
    (initial_session (Some "MZ1")) initial_locals
  = Continue (initial_session (Some "MZ1"), initial_locals) [].
Proof.
  apply (other_inbound_events_are_ignored true
           {| event := Some "stop"; start_streamSid := None;
              media_timestamp := None; media_payload := None |}
           (initial_session (Some "MZ1")) initial_locals "stop").
  - reflexivity.
  - discriminate.
  - discriminate.
  - left. discriminate.
Defined.

End pump_properties.

(** ** Settings and the chat demo *)

Section settings_properties.
Import Config WebUI.
Implicit Types (environ : gmap string string).

Lemma missing_setting_None environ :
  missing_setting environ = None
  ↔ truthy (getenv environ "OPENAI_API_KEY") = true
    ∧ truthy (getenv environ "TWILIO_AUTH_TOKEN") = true
    ∧ truthy (getenv environ "ZAPIER_MCP_URL") = true
    ∧ truthy (getenv environ "ZAPIER_MCP_PASSWORD") = true
    ∧ truthy (getenv environ "ASSISTANT_INSTRUCTIONS") = true
    ∧ truthy (getenv environ "VOICE") = true.
Proof.
  unfold missing_setting.
  destruct (truthy (getenv environ "OPENAI_API_KEY")),
    (truthy (getenv environ "TWILIO_AUTH_TOKEN")),
    (truthy (getenv environ "ZAPIER_MCP_URL")),
    (truthy (getenv environ "ZAPIER_MCP_PASSWORD")),
    (truthy (getenv environ "ASSISTANT_INSTRUCTIONS")),
    (truthy (getenv environ "VOICE")); cbn [negb]; split;
    solve [done | by intros (? & ? & ? & ? & ? & ?)].
Qed.

(** X22. The checks of the relay's settings (main.py, lines 44-60) raise
    nothing exactly when each of the six required settings (model key,
    provider token, tool endpoint and password, instructions, voice) is
    present and not empty; a setting that is present but empty counts as
    missing. *)
Theorem relay_loads_iff_all_settings_present environ :
  missing_setting environ = None
  ↔ (∀ name,
       name ∈ ["OPENAI_API_KEY"; "TWILIO_AUTH_TOKEN"; "ZAPIER_MCP_URL";
               "ZAPIER_MCP_PASSWORD"; "ASSISTANT_INSTRUCTIONS"; "VOICE"] →
       ∃ value, environ !! name = Some value ∧ value ≠ "").
Proof.
  assert (∀ name, truthy (getenv environ name) = true
                  ↔ ∃ value, environ !! name = Some value ∧ value ≠ "")
    as Htruthy.
  { intros name. unfold getenv. destruct (environ !! name) as [v|]; cbn.
    - rewrite negb_true_iff, String.eqb_neq. split; [eauto|].
      by intros (? & [= <-] & ?).
    - split; [done|]. by intros (? & ? & _). }
  rewrite missing_setting_None, !Htruthy. split.
  - intros (? & ? & ? & ? & ? & ?) name Hin.
    repeat (apply elem_of_cons in Hin as [->|Hin]; [done|]).
    by apply elem_of_nil in Hin.
  - intros Hall. split_and!; apply Hall; apply list_elem_of_In; simpl; tauto.
Qed.

(** X23. Settings that pass the relay's checks also let the chat demo
    start, with no warning and with its tools shown as connected; and the
    agent of the demo is then given the same external tool, declared in the
    same way (label, endpoint, authorization header, approval never
    required), as the relay registers with the model. *)
Theorem relay_settings_serve_the_chat_demo environ :
  missing_setting environ = None →
  check_settings environ = Started false
  ∧ has_tools environ = true
  ∧ get_agent_tools environ = session_tools environ.
Proof.
  intros (Hkey & _ & Hurl & Hpw & Hinstr & _)%missing_setting_None.
  unfold check_settings, has_tools, get_agent_tools, session_tools.
  by rewrite Hkey, Hurl, Hpw, Hinstr.
Qed.

Lemma relay_settings_serve_the_chat_demo_witness :
  let environ : gmap string string :=
    <["OPENAI_API_KEY" := "k"]> (<["TWILIO_AUTH_TOKEN" := "t"]>
    (<["ZAPIER_MCP_URL" := "u"]> (<["ZAPIER_MCP_PASSWORD" := "p"]>
    (<["ASSISTANT_INSTRUCTIONS" := "i"]> (<["VOICE" := "v"]> ∅))))) in
  check_settings environ = Started false
  ∧ has_tools environ = true
  ∧ get_agent_tools environ = session_tools environ.
Proof.
  apply (relay_settings_serve_the_chat_demo
           (<["OPENAI_API_KEY" := "k"]> (<["TWILIO_AUTH_TOKEN" := "t"]>
            (<["ZAPIER_MCP_URL" := "u"]> (<["ZAPIER_MCP_PASSWORD" := "p"]>
            (<["ASSISTANT_INSTRUCTIONS" := "i"]> (<["VOICE" := "v"]> ∅))))))).
  vm_compute. reflexivity.
Defined.

Lemma script_run_turns prompt outcome clear_pressed stored
    (turns : list (string * option string)) :
  session_messages stored = turns ≫= turn_messages →
  ∃ turns' : list (string * option string),
    session_messages (script_run prompt outcome clear_pressed stored)
    = turns' ≫= turn_messages
    ∧ (Forall (fun turn => is_Some turn.2) turns →
       outcome ≠ Escaped →
       Forall (fun turn => is_Some turn.2) turns').
Proof.
  intros Hturns. unfold script_run, handle_prompt.
  destruct prompt as [text|];
    [|destruct clear_pressed; [by exists []|by exists turns]].
  destruct (truthy (Some text));
    [|destruct clear_pressed; [by exists []|by exists turns]].
  destruct outcome as [final_output|e|].
  - destruct clear_pressed; [by exists []|]. cbn [andb session_messages].
    eexists (turns ++ [(text, Some _)])%list. rewrite bind_app, <- Hturns.
    split; [by rewrite <- app_assoc|].
    intros Hall _. apply Forall_app. split; [done|]. by repeat constructor.
  - destruct clear_pressed; [by exists []|]. cbn [andb session_messages].
    eexists (turns ++ [(text, Some _)])%list. rewrite bind_app, <- Hturns.
    split; [by rewrite <- app_assoc|].
    intros Hall _. apply Forall_app. split; [done|]. by repeat constructor.
  - cbn [andb session_messages].
    exists (turns ++ [(text, None)])%list. rewrite bind_app, <- Hturns.
    split; [done|]. by intros _ ?.
Qed.

(** X24. In the chat history an assistant message never stands alone: after
    any series of script runs (prompts submitted or not, agent runs that
    return, raise or are left by an exception that is not caught, the
    history cleared or not), starting from a fresh session, the stored
    messages are a sequence of turns, each a user message followed by at
    most one assistant message. A turn is without its assistant message only
    if a run was left between storing the one and storing the other: either
    every turn is complete, or some run was left. *)
Theorem chat_history_is_a_sequence_of_turns
    (runs : list (option string * agent_run * bool)) :
  ∃ turns : list (string * option string),
    session_messages (script_runs runs None) = turns ≫= turn_messages
    ∧ (Forall (fun turn => is_Some turn.2) turns
       ∨ Exists (fun run => run.1.2 = Escaped) runs).
Proof.
  unfold script_runs.
  cut (∀ stored (turns : list (string * option string)),
         session_messages stored = turns ≫= turn_messages →
         ∃ turns' : list (string * option string),
           session_messages
             (foldl (fun stored '(prompt, outcome, clear_pressed) =>
                       script_run prompt outcome clear_pressed stored)
                stored runs)
           = turns' ≫= turn_messages
           ∧ (Forall (fun turn => is_Some turn.2) turns →
              Forall (fun turn => is_Some turn.2) turns'
              ∨ Exists (fun run => run.1.2 = Escaped) runs)).
  { intros Hgen. destruct (Hgen None []) as (turns & Hturns & Hall); [done|].
    exists turns. split; [done|]. apply Hall. constructor. }
  induction runs as [|[[prompt outcome] clear_pressed] runs IH];
    intros stored turns Hturns; [exists turns; split; [done|by left]|].
  cbn [foldl].
  destruct (script_run_turns prompt outcome clear_pressed stored turns Hturns)
    as (turns1 & Hturns1 & Hall1).
  destruct (IH _ turns1 Hturns1) as (turns' & Hturns' & Hall').
  exists turns'. split; [done|]. intros Hall.
  assert (outcome = Escaped ∨ outcome ≠ Escaped) as [->|Hne]
    by (destruct outcome; [by right|by right|by left]).
  - right. by left.
  - destruct (Hall' (Hall1 Hall Hne)) as [?|?]; [by left|right; by right].
Qed.

End settings_properties.
